(** * fastmcp_wizard: the progressive-disclosure form wizard

    A shallow embedding of [fastmcp_wizard/models.py] (FormStep),
    [fastmcp_wizard/exceptions.py] (McpError) and
    [fastmcp_wizard/manager.py] (WizardManager), followed by the properties
    of [WizardManager.execute].

    The FastMCP [Context] is an external collaborator.  It is represented by
    the two capabilities that [execute] consumes: the per-session state
    store ([get_state] / [set_state]) and the elicitation transport
    ([elicit]).  The human on the other side of [elicit] is a finite list of
    replies still to come; when that list runs out the coroutine stays
    suspended on its [await].

    The embedding covers the runs in which the collaborators behave: a
    step's condition is a predicate that returns, and [elicit] either gives
    a result object or raises pydantic's [ValidationError], the one
    exception that [execute] handles.

    Dictionaries are values here.  [execute] updates [session_data] in
    place and hands the same object to [set_state] in the next statement,
    so the dict it holds and the one in the store agree at every point
    where the store can be read. *)

From Stdlib Require Import ZArith String Ascii.
From stdpp Require Import gmap strings list fin_maps pretty.

Local Open Scope string_scope.
Local Open Scope Z_scope.
Local Set Warnings "-register-all".

(** ** Python values *)

(** The values that travel through the session store and the elicitation
    replies ([Any] in the type hints). Dictionaries have string keys. *)
Inductive PyVal : Type :=
  | VNone
  | VBool (b : bool)
  | VInt (n : Z)
  | VStr (s : string)
  | VList (l : list PyVal)
  | VDict (d : gmap string PyVal).

(** Python truthiness, as used by [x or {}]. *)
Definition truthy (v : PyVal) : bool :=
  match v with
  | VNone => false
  | VBool b => b
  | VInt n => negb (n =? 0)
  | VStr s => negb (String.eqb s "")
  | VList l => match l with [] => false | _ => true end
  | VDict d => negb (bool_decide (d = ∅))
  end.

(** [a or b] *)
Definition py_or (a b : PyVal) : PyVal := if truthy a then a else b.

(** [isinstance(v, dict)] *)
Definition isinstance_dict (v : PyVal) : bool :=
  match v with VDict _ => true | _ => false end.

(** The newline character of the Python literals ["\n"]. *)
Definition nl : string := String "010"%char EmptyString.

(** ** models.py *)

(** What a step hands to the transport as [response_type]: nothing, a
    scalar type such as [str], a list of strings (single select), a nested
    list of strings (multi select) or a model class. *)
Inductive Schema : Type :=
  | SchemaNone
  | SchemaScalar (type_name : string)
  | SchemaSelect (options : list string)
  | SchemaMultiSelect (options : list string)
  | SchemaModel (class_name : string).

(** [@dataclass class FormStep] *)
Record FormStep : Type := {
  step_id : string;
  message : string;
  schema : Schema;
  condition : option (gmap string PyVal → bool);
  is_required : bool;
}.

(** The dataclass constructor with its two defaults,
    [condition = None] and [is_required = True]. *)
Definition FormStep_default (step_id message : string) (schema : Schema) : FormStep :=
  {| step_id := step_id; message := message; schema := schema;
     condition := None; is_required := true |}.

(** ** exceptions.py *)

(** [McpError(code, message)], and the [IndexError] that indexing an empty
    [loc] raises inside the retry handler. *)
Inductive Exception : Type :=
  | McpError (code : Z) (message : string)
  | IndexError.

(** ** The collaborators behind [Context] *)

(** One component of a pydantic error location: a field name or an index. *)
Inductive LocItem : Type :=
  | LocName (s : string)
  | LocIndex (i : Z).

(** One entry of [ValidationError.errors()]; a key that is missing from the
    entry is [None]. *)
Record ErrorDetails : Type := {
  loc : option (list LocItem);
  msg : option string;
}.

(** What one [await ctx.elicit(...)] gives back: a result object with its
    [action] string and [data], or a raised [ValidationError]. *)
Inductive ElicitReply : Type :=
  | Result (action : string) (data : PyVal)
  | ValidationError (errors : list ErrorDetails).

(** The session as [execute] sees it through [ctx]: the state store of the
    session and the replies the client has yet to send. *)
Record Context : Type := {
  state : gmap string PyVal;
  replies : list ElicitReply;
}.

(** [ctx.get_state(key)]: the stored value, Python's [None] when absent. *)
Definition get_state (ctx : Context) (key : string) : PyVal :=
  default VNone (state ctx !! key).

(** [ctx.set_state(key, value)]: overwrite. *)
Definition set_state (ctx : Context) (key : string) (value : PyVal) : Context :=
  {| state := <[key := value]> (state ctx); replies := replies ctx |}.

(** One call of [ctx.elicit]: the step being processed, the two arguments
    of the call, the session store at the moment of the call, and the
    reply ([None] while the call is still awaited). *)
Record Exchange : Type := {
  ex_step : FormStep;
  ex_message : string;
  ex_response_type : Schema;
  ex_store : gmap string PyVal;
  ex_reply : option ElicitReply;
}.

(** How a coroutine ends: it returns, it raises, or it stays suspended on
    an [await] that the client never answers. *)
Inductive Outcome (A : Type) : Type :=
  | Return (a : A)
  | Raise (e : Exception)
  | Suspended.
Arguments Return {A} a.
Arguments Raise {A} e.
Arguments Suspended {A}.

(** A finished (or suspended) piece of execution: its outcome, the context
    it leaves behind and the elicitations it issued, oldest first. *)
Record Run (A : Type) : Type := {
  outcome : Outcome A;
  ctx_after : Context;
  exchanges : list Exchange;
}.
Arguments outcome {A} r.
Arguments ctx_after {A} r.
Arguments exchanges {A} r.

(** Sequencing: the continuation runs only after a normal return. *)
Definition and_then {A B : Type} (r : Run A) (k : A → Context → Run B) : Run B :=
  match outcome r with
  | Return a =>
      let r' := k a (ctx_after r) in
      {| outcome := outcome r'; ctx_after := ctx_after r';
         exchanges := exchanges r ++ exchanges r' |}
  | Raise e =>
      {| outcome := Raise e; ctx_after := ctx_after r; exchanges := exchanges r |}
  | Suspended =>
      {| outcome := Suspended; ctx_after := ctx_after r; exchanges := exchanges r |}
  end.

(** Put an exchange in front of what follows it. *)
Definition after_exchange {A : Type} (ex : Exchange) (r : Run A) : Run A :=
  {| outcome := outcome r; ctx_after := ctx_after r; exchanges := ex :: exchanges r |}.

(** ** manager.py *)

(** [class WizardManager]: [self.wizard_id] and [self.steps]. *)
Record WizardManager : Type := {
  wizard_id : string;
  steps : list FormStep;
}.

(** [WizardManager.__init__] *)
Definition WizardManager_init (wizard_id : string) : WizardManager :=
  {| wizard_id := wizard_id; steps := [] |}.

(** [WizardManager.add_step]: [self.steps.append(step); return self]. *)
Definition add_step (self : WizardManager) (step : FormStep) : WizardManager :=
  {| wizard_id := wizard_id self; steps := steps self ++ [step] |}.

(** [str(x)] of a location component inside the f-string. *)
Definition str_loc (x : LocItem) : string :=
  match x with
  | LocName s => s
  | LocIndex i => pretty i
  end.

(** [f"- {err.get('loc', [''])[0]}: {err.get('msg', 'Invalid')}"];
    [None] stands for the [IndexError] of [[0]] on an empty location. *)
Definition format_error (err : ErrorDetails) : option string :=
  match default [LocName ""] (loc err) with
  | [] => None
  | first :: _ => Some ("- " +:+ str_loc first +:+ ": " +:+ default "Invalid" (msg err))
  end.

(** [sep.join(items)] *)
Fixpoint join (sep : string) (items : list string) : string :=
  match items with
  | [] => ""
  | [x] => x
  | x :: rest => x +:+ sep +:+ join sep rest
  end.

(** [error_details]: the source joins with the literal ["\\n"], which is
    the two characters backslash and [n]. *)
Definition error_details (errors : list ErrorDetails) : option string :=
  join "\n" <$> mapM format_error errors.

(** The message of a retry:
    [f"{step.message}\n\nValidation Error(s):\n{error_details}\n\nPlease correct your input."] *)
Definition retry_message (step : FormStep) (details : string) : string :=
  message step +:+ nl +:+ nl +:+ "Validation Error(s):" +:+ nl +:+ details
    +:+ nl +:+ nl +:+ "Please correct your input.".

(** The [while True] loop of one step.  It recurses on the replies still to
    come: every turn of the loop consumes one of them, and with none left
    the [await ctx.elicit(...)] stays suspended. *)
Fixpoint elicit_loop (wizard_id : string) (step : FormStep)
    (session_data : gmap string PyVal) (current_message : string)
    (state : gmap string PyVal) (replies : list ElicitReply)
    : Run (gmap string PyVal) :=
  let call reply :=
    {| ex_step := step; ex_message := current_message;
       ex_response_type := schema step; ex_store := state; ex_reply := reply |} in
  match replies with
  | [] =>
      {| outcome := Suspended;
         ctx_after := {| state := state; replies := [] |};
         exchanges := [call None] |}
  | reply :: replies =>
      let ctx := {| state := state; replies := replies |} in
      match reply with
      | Result action data =>
          if String.eqb action "accept" then
            let session_data := <[step_id step := data]> session_data in
            {| outcome := Return session_data;
               ctx_after := set_state ctx wizard_id (VDict session_data);
               exchanges := [call (Some reply)] |}
          else if String.eqb action "decline" then
            if is_required step then
              {| outcome := Raise (McpError (-32600)
                   ("Required step '" +:+ step_id step +:+ "' declined."));
                 ctx_after := ctx; exchanges := [call (Some reply)] |}
            else
              {| outcome := Return session_data;
                 ctx_after := ctx; exchanges := [call (Some reply)] |}
          else if String.eqb action "cancel" then
            {| outcome := Raise (McpError (-32000)
                 "Workflow aborted by user cancellation.");
               ctx_after := ctx; exchanges := [call (Some reply)] |}
          else
            {| outcome := Raise (McpError (-32603)
                 "Internal error: Received unknown elicitation action.");
               ctx_after := ctx; exchanges := [call (Some reply)] |}
      | ValidationError errors =>
          match error_details errors with
          | None =>
              {| outcome := Raise IndexError;
                 ctx_after := ctx; exchanges := [call (Some reply)] |}
          | Some details =>
              after_exchange (call (Some reply))
                (elicit_loop wizard_id step session_data
                   (retry_message step details) state replies)
          end
      end
  end.

(** [step.step_id in session_data] *)
Definition answered (step : FormStep) (session_data : gmap string PyVal) : bool :=
  bool_decide (is_Some (session_data !! step_id step)).

(** [step.condition and not step.condition(session_data)] *)
Definition hidden (step : FormStep) (session_data : gmap string PyVal) : bool :=
  match condition step with
  | None => false
  | Some c => negb (c session_data)
  end.

(** The body of [for step in self.steps], for one step. *)
Definition run_step (wizard_id : string) (step : FormStep)
    (session_data : gmap string PyVal) (ctx : Context) : Run (gmap string PyVal) :=
  if answered step session_data then
    {| outcome := Return session_data; ctx_after := ctx; exchanges := [] |}
  else if hidden step session_data then
    {| outcome := Return session_data; ctx_after := ctx; exchanges := [] |}
  else
    elicit_loop wizard_id step session_data (message step) (state ctx) (replies ctx).

(** [for step in self.steps: ...] *)
Fixpoint run_steps (wizard_id : string) (steps : list FormStep)
    (session_data : gmap string PyVal) (ctx : Context) : Run (gmap string PyVal) :=
  match steps with
  | [] => {| outcome := Return session_data; ctx_after := ctx; exchanges := [] |}
  | step :: steps =>
      and_then (run_step wizard_id step session_data ctx) (run_steps wizard_id steps)
  end.

(** The first three statements of [execute]:
    [session_data = await ctx.get_state(self.wizard_id) or {}], replaced by
    [{}] when it is not a dict. *)
Definition load_session (ctx : Context) (wizard_id : string) : gmap string PyVal :=
  let session_data := py_or (get_state ctx wizard_id) (VDict ∅) in
  let session_data :=
    if negb (isinstance_dict session_data) then VDict ∅ else session_data in
  match session_data with
  | VDict d => d
  | _ => ∅
  end.

(** [WizardManager.execute] *)
Definition execute (self : WizardManager) (ctx : Context) : Run (gmap string PyVal) :=
  let session_data := load_session ctx (wizard_id self) in
  and_then (run_steps (wizard_id self) (steps self) session_data ctx)
    (λ session_data ctx,
      {| outcome := Return session_data;
         ctx_after := set_state ctx (wizard_id self) (VDict ∅);
         exchanges := [] |}).

(** ** Reading a log of exchanges *)

(** The data of an exchange that ended in ["accept"]. *)
Definition accepted_data (ex : Exchange) : option PyVal :=
  match ex_reply ex with
  | Some (Result action data) =>
      if String.eqb action "accept" then Some data else None
  | _ => None
  end.

(** The answer map after one more exchange. *)
Definition record (session_data : gmap string PyVal) (ex : Exchange) : gmap string PyVal :=
  match accepted_data ex with
  | Some data => <[step_id (ex_step ex) := data]> session_data
  | None => session_data
  end.

(** The answer map after a log: the answers it started from, updated with
    every accepted answer of the log. *)
Definition recorded (session_data : gmap string PyVal) (log : list Exchange)
    : gmap string PyVal :=
  foldl record session_data log.

(** Does the log contain an accepted answer? *)
Definition any_accepted (log : list Exchange) : bool :=
  existsb (λ ex, bool_decide (is_Some (accepted_data ex))) log.

(** The store that a log leaves behind when every accepted answer is
    persisted at once and nothing else is ever written. *)
Definition persisted (wizard_id : string) (state session_data : gmap string PyVal)
    (log : list Exchange) : gmap string PyVal :=
  if any_accepted log
  then <[wizard_id := VDict (recorded session_data log)]> state
  else state.

(** Every exchange of the log asks for a key that the answers do not hold
    at that moment. *)
Fixpoint asks_fresh (session_data : gmap string PyVal) (log : list Exchange) : Prop :=
  match log with
  | [] => True
  | ex :: log =>
      session_data !! step_id (ex_step ex) = None ∧
      asks_fresh (record session_data ex) log
  end.

(** Every exchange of the log saw the store that the exchanges before it
    left behind. *)
Fixpoint stores_follow (wizard_id : string) (state session_data : gmap string PyVal)
    (log : list Exchange) : Prop :=
  match log with
  | [] => True
  | ex :: log =>
      ex_store ex = state ∧
      stores_follow wizard_id (persisted wizard_id state session_data [ex])
        (record session_data ex) log
  end.

(** The steps asked are those of the registry, in its order, each one any
    number of times in a row. *)
Definition in_registration_order (steps asked : list FormStep) : Prop :=
  ∃ counts : list nat,
    length counts = length steps ∧
    asked = concat (zip_with replicate counts steps).

(** ** Example wizards *)

(** The wizard of [assets/wizard_skeleton.py]. *)

(** [lambda data: data.get("environment") == "production"] *)
Definition is_production (data : gmap string PyVal) : bool :=
  match data !! "environment" with
  | Some (VStr s) => String.eqb s "production"
  | _ => false
  end.

Definition environment_step : FormStep :=
  FormStep_default "environment" "Select the target environment:"
    (SchemaSelect ["development"; "staging"; "production"]).

Definition advanced_features_step : FormStep :=
  {| step_id := "advanced_features";
     message := "Select advanced features to enable:";
     schema := SchemaMultiSelect ["monitoring"; "auto_scaling"; "load_balancer"];
     condition := Some is_production;
     is_required := true |}.

Definition config_step : FormStep :=
  FormStep_default "config" "Provide specific infrastructure sizing configuration:"
    (SchemaModel "InfrastructureConfig").

Definition infra_wizard : WizardManager :=
  add_step
    (add_step
       (add_step (WizardManager_init "infra_provisioning_wizard") environment_step)
       advanced_features_step)
    config_step.

(** A session that starts with an empty store. *)
Definition fresh_session (replies : list ElicitReply) : Context :=
  {| state := ∅; replies := replies |}.

(** The client picks production and one feature, then declines the
    configuration. *)
Definition production_then_decline : Context :=
  fresh_session
    [Result "accept" (VStr "production");
     Result "accept" (VList [VStr "monitoring"]);
     Result "decline" VNone].

(** The store once [environment] and [advanced_features] are accepted. *)
Definition production_store : gmap string PyVal :=
  {[ "infra_provisioning_wizard" :=
       VDict {[ "environment" := VStr "production";
                "advanced_features" := VList [VStr "monitoring"] ]} ]}.

Definition config_declined : Exchange :=
  {| ex_step := config_step;
     ex_message := message config_step;
     ex_response_type := schema config_step;
     ex_store := production_store;
     ex_reply := Some (Result "decline" VNone) |}.

(** The client picks staging, then cancels at the configuration. *)
Definition staging_then_cancel : Context :=
  fresh_session [Result "accept" (VStr "staging"); Result "cancel" VNone].

Definition staging_store : gmap string PyVal :=
  {[ "infra_provisioning_wizard" := VDict {[ "environment" := VStr "staging" ]} ]}.

Definition config_cancelled : Exchange :=
  {| ex_step := config_step;
     ex_message := message config_step;
     ex_response_type := schema config_step;
     ex_store := staging_store;
     ex_reply := Some (Result "cancel" VNone) |}.

(** The client picks staging and gives a configuration. *)
Definition staging_complete : Context :=
  fresh_session
    [Result "accept" (VStr "staging"); Result "accept" (VStr "t3.micro")].

(** Two field errors of the [InfrastructureConfig] model. *)
Definition config_errors : list ErrorDetails :=
  [ {| loc := Some [LocName "instance_type"]; msg := Some "Field required" |};
    {| loc := Some [LocName "volume_size"];
       msg := Some "Input should be greater than or equal to 10" |} ].

(** A session resumed at the configuration, whose first reply fails
    validation with those two errors. *)
Definition staging_invalid_config : Context :=
  {| state := staging_store; replies := [ValidationError config_errors] |}.

(** A wizard with an optional step. *)
Definition nickname_step : FormStep :=
  {| step_id := "nickname"; message := "Pick a nickname (optional):";
     schema := SchemaScalar "str"; condition := None; is_required := false |}.

Definition email_step : FormStep :=
  FormStep_default "email" "What is your email address?" (SchemaScalar "str").

Definition signup_wizard : WizardManager :=
  add_step (add_step (WizardManager_init "signup_wizard") nickname_step) email_step.

Definition nickname_declined : Exchange :=
  {| ex_step := nickname_step;
     ex_message := message nickname_step;
     ex_response_type := schema nickname_step;
     ex_store := ∅;
     ex_reply := Some (Result "decline" VNone) |}.

Definition decline_then_email : Context :=
  fresh_session [Result "decline" VNone; Result "accept" (VStr "ada@example.org")].

(** A wizard whose first step is shown only while no email is known. *)

(** [lambda data: "email" not in data] *)
Definition no_email (data : gmap string PyVal) : bool :=
  negb (bool_decide (is_Some (data !! "email"))).

Definition phone_step : FormStep :=
  {| step_id := "phone"; message := "What is your phone number?";
     schema := SchemaScalar "str"; condition := Some no_email; is_required := true |}.

Definition confirm_step : FormStep :=
  FormStep_default "confirm" "Type yes to confirm:" (SchemaScalar "str").

Definition contact_wizard : WizardManager :=
  add_step
    (add_step (add_step (WizardManager_init "contact_wizard") phone_step) email_step)
    confirm_step.

(** First run: phone and email are given, then the client cancels. *)
Definition contact_first_run : Context :=
  fresh_session
    [Result "accept" (VStr "555-0100");
     Result "accept" (VStr "ada@example.org");
     Result "cancel" VNone].

(** Second run, on the store the first run left behind. *)
Definition contact_second_run : Context :=
  {| state := state (ctx_after (execute contact_wizard contact_first_run));
     replies := [Result "accept" (VStr "yes")] |}.

(** A step with an empty step_id and an empty multi-select, registered
    twice. *)
Definition blank_step : FormStep :=
  FormStep_default "" "Choose:" (SchemaMultiSelect []).

Definition blank_wizard : WizardManager :=
  add_step (add_step (WizardManager_init "blank_wizard") blank_step) blank_step.

(** A store that already holds answers for the infrastructure wizard, one
    of them under a key that no step of the wizard has. *)
Definition legacy_answers : gmap string PyVal :=
  {[ "region" := VStr "eu-west-1"; "environment" := VStr "staging" ]}.

Definition legacy_session : Context :=
  {| state := {[ "infra_provisioning_wizard" := VDict legacy_answers ]};
     replies := [Result "accept" (VStr "t3.micro")] |}.

(** ** The tools built on the wizard *)

(** How Python prints a dict inside an f-string depends on the insertion
    order of its keys, which the maps above do not keep; the tools below
    take that printer as an argument [str_dict]. *)

(** [provision_infrastructure] of [assets/wizard_skeleton.py]: the wizard
    is [infra_wizard]; whatever [execute] raises goes through. *)
Definition provision_infrastructure (str_dict : gmap string PyVal → string)
    (ctx : Context) : Run string :=
  and_then (execute infra_wizard ctx)
    (λ collected_data ctx,
      {| outcome :=
           Return ("Infrastructure successfully provisioned with config: "
                     +:+ str_dict collected_data);
         ctx_after := ctx; exchanges := [] |}).

(** The wizard of [examples/basic_wizard.py]. *)

(** [lambda data: data.get("role") == "admin"] *)
Definition is_admin (data : gmap string PyVal) : bool :=
  match data !! "role" with
  | Some (VStr s) => String.eqb s "admin"
  | _ => false
  end.

Definition username_step : FormStep :=
  FormStep_default "username" "What is the new username?" (SchemaScalar "str").

Definition role_step : FormStep :=
  FormStep_default "role" "Select the primary role for the user:"
    (SchemaSelect ["admin"; "editor"; "viewer"]).

Definition permissions_step : FormStep :=
  {| step_id := "permissions";
     message := "Select the administrative permissions:";
     schema := SchemaMultiSelect ["read_logs"; "write_db"; "delete_users"];
     condition := Some is_admin;
     is_required := true |}.

Definition details_step : FormStep :=
  FormStep_default "details" "Please provide additional profile details:"
    (SchemaModel "ProfileDetails").

Definition profile_wizard : WizardManager :=
  add_step
    (add_step
       (add_step (add_step (WizardManager_init "profile_wizard") username_step)
          role_step)
       permissions_step)
    details_step.

(** [str(e)]: [McpError.__init__] hands its message to [Exception], so the
    text of an [McpError] is its message; the text of the interpreter's
    [IndexError] is an argument. *)
Definition str_exception (index_error_text : string) (e : Exception) : string :=
  match e with
  | McpError _ message => message
  | IndexError => index_error_text
  end.

(** [deploy_user_profile] of [examples/basic_wizard.py]: the [try] returns
    the collected data as text, the [except Exception] returns the text of
    the exception. *)
Definition deploy_user_profile (str_dict : gmap string PyVal → string)
    (index_error_text : string) (ctx : Context) : Run string :=
  let run := execute profile_wizard ctx in
  {| outcome :=
       match outcome run with
       | Return collected_data =>
           Return ("Wizard completed successfully. Data gathered:" +:+ nl
                     +:+ str_dict collected_data)
       | Raise e =>
           Return ("Wizard aborted or failed: " +:+ str_exception index_error_text e)
       | Suspended => Suspended
       end;
     ctx_after := ctx_after run;
     exchanges := exchanges run |}.

(** ** More ways to read a log *)

(** The exception that the reply of an exchange makes the loop raise, as
    the four [raise] sites of [execute] have it (the fourth is the
    [IndexError] of the listing). *)
Inductive raises_at : Exchange → Exception → Prop :=
  | required_declined ex data :
      ex_reply ex = Some (Result "decline" data) →
      is_required (ex_step ex) = true →
      raises_at ex
        (McpError (-32600)
           ("Required step '" +:+ step_id (ex_step ex) +:+ "' declined."))
  | cancelled ex data :
      ex_reply ex = Some (Result "cancel" data) →
      raises_at ex (McpError (-32000) "Workflow aborted by user cancellation.")
  | unknown_action ex action data :
      ex_reply ex = Some (Result action data) →
      action ≠ "accept" → action ≠ "decline" → action ≠ "cancel" →
      raises_at ex
        (McpError (-32603) "Internal error: Received unknown elicitation action.")
  | listing_failed ex errors :
      ex_reply ex = Some (ValidationError errors) →
      error_details errors = None →
      raises_at ex IndexError.

(** What the transport gets and gives in one exchange: the exchange without
    the snapshot of the store. *)
Definition call_of (ex : Exchange) : FormStep * string * Schema * option ElicitReply :=
  (ex_step ex, ex_message ex, ex_response_type ex, ex_reply ex).

(** The errors of an exchange that ended in a [ValidationError]. *)
Definition failed_with (ex : Exchange) : option (list ErrorDetails) :=
  match ex_reply ex with
  | Some (ValidationError errors) => Some errors
  | _ => None
  end.

(** How many exchanges of the log ended in a [ValidationError]. *)
Definition validation_failures (log : list Exchange) : nat :=
  length (omap failed_with log).

(** ** More sessions of the example wizards *)

(** The client picks staging; the next reply carries an action that the
    wizard does not know. *)
Definition staging_then_timeout : Context :=
  fresh_session [Result "accept" (VStr "staging"); Result "timeout" VNone].

Definition config_timed_out : Exchange :=
  {| ex_step := config_step;
     ex_message := message config_step;
     ex_response_type := schema config_step;
     ex_store := staging_store;
     ex_reply := Some (Result "timeout" VNone) |}.

(** A model-level error: its location is the empty tuple. *)
Definition model_errors : list ErrorDetails :=
  [ {| loc := Some []; msg := Some "Value error, sizes do not add up" |} ].

Definition staging_model_error : Context :=
  {| state := staging_store; replies := [ValidationError model_errors] |}.

Definition config_model_error : Exchange :=
  {| ex_step := config_step;
     ex_message := message config_step;
     ex_response_type := schema config_step;
     ex_store := staging_store;
     ex_reply := Some (ValidationError model_errors) |}.

(** The two exchanges of [staging_invalid_config]: the configuration is
    rejected, then asked again and not answered yet. *)
Definition config_rejected : Exchange :=
  {| ex_step := config_step;
     ex_message := message config_step;
     ex_response_type := schema config_step;
     ex_store := staging_store;
     ex_reply := Some (ValidationError config_errors) |}.

Definition config_listing : string :=
  "- instance_type: Field required\n- volume_size: Input should be greater than or equal to 10".

Definition config_asked_again : Exchange :=
  {| ex_step := config_step;
     ex_message := retry_message config_step config_listing;
     ex_response_type := schema config_step;
     ex_store := staging_store;
     ex_reply := None |}.

(** The first exchange of [production_then_decline]. *)
Definition environment_accepted : Exchange :=
  {| ex_step := environment_step;
     ex_message := message environment_step;
     ex_response_type := schema environment_step;
     ex_store := ∅;
     ex_reply := Some (Result "accept" (VStr "production")) |}.


(** A session whose store also holds the entry of another wizard. *)
Definition shared_session : Context :=
  {| state := {[ "profile_wizard" := VDict {[ "username" := VStr "ada" ]} ]};
     replies := [Result "accept" (VStr "staging"); Result "accept" (VStr "t3.micro")] |}.

(** [legacy_session] with one more entry in the store. *)
Definition legacy_session_shared : Context :=
  {| state := {[ "infra_provisioning_wizard" := VDict legacy_answers;
                 "profile_wizard" := VDict {[ "username" := VStr "ada" ]} ]};
     replies := [Result "accept" (VStr "t3.micro")] |}.

(** A session whose entry for the wizard is a string. *)
Definition garbled_session : Context :=
  {| state := {[ "infra_provisioning_wizard" := VStr "staging" ]};
     replies := [Result "accept" (VStr "staging"); Result "accept" (VStr "t3.micro")] |}.

(** A session in which every step is answered or hidden. *)
Definition settled_answers : gmap string PyVal :=
  {[ "environment" := VStr "staging"; "config" := VStr "t3.micro" ]}.

Definition settled_session : Context :=
  {| state := {[ "infra_provisioning_wizard" := VDict settled_answers ]};
     replies := [] |}.

(** A wizard in which two steps are registered under one step_id: the
    first asks for a contact without requiring it, the second requires
    it. *)
Definition contact_optional_step : FormStep :=
  {| step_id := "contact"; message := "A phone number or email (optional):";
     schema := SchemaScalar "str"; condition := None; is_required := false |}.

Definition contact_required_step : FormStep :=
  FormStep_default "contact" "We need a way to reach you:" (SchemaScalar "str").

Definition alias_wizard : WizardManager :=
  add_step
    (add_step (WizardManager_init "alias_wizard") contact_optional_step)
    contact_required_step.

(** The client declines the first of them and answers the second. *)
Definition decline_then_contact : Context :=
  fresh_session [Result "decline" VNone; Result "accept" (VStr "ada@example.org")].

(** The second exchange of [decline_then_email]. *)
Definition email_accepted : Exchange :=
  {| ex_step := email_step;
     ex_message := message email_step;
     ex_response_type := schema email_step;
     ex_store := ∅;
     ex_reply := Some (Result "accept" (VStr "ada@example.org")) |}.

(** A complete session of the profile wizard on an empty store. *)
Definition admin_complete : Context :=
  fresh_session
    [Result "accept" (VStr "ada");
     Result "accept" (VStr "admin");
     Result "accept" (VList [VStr "read_logs"]);
     Result "accept" (VStr "age 36, writes programs")].

Definition admin_answers : gmap string PyVal :=
  {[ "username" := VStr "ada";
     "role" := VStr "admin";
     "permissions" := VList [VStr "read_logs"];
     "details" := VStr "age 36, writes programs" ]}.

(** * Properties *)

(** ** Logs *)

Section Logs.
Context (wizard_id : string).
Implicit Types (sd st : gmap string PyVal) (log : list Exchange) (ex : Exchange).

Lemma recorded_app sd log1 log2 :
  recorded sd (log1 ++ log2) = recorded (recorded sd log1) log2.
Proof. apply foldl_app. Qed.

Lemma recorded_cons sd ex log :
  recorded sd (ex :: log) = recorded (record sd ex) log.
Proof. reflexivity. Qed.


Lemma record_not_accepted sd ex : accepted_data ex = None → record sd ex = sd.
Proof. intros H. unfold record. by rewrite H. Qed.

Lemma recorded_none_accepted sd log :
  any_accepted log = false → recorded sd log = sd.
Proof.
  revert sd. induction log as [|ex log IH]; intros sd H; [done|].
  cbn in H. apply orb_false_iff in H as [Hex Hlog].
  rewrite recorded_cons, record_not_accepted; [by apply IH|].
  apply bool_decide_eq_false in Hex.
  destruct (accepted_data ex); [|done]. by destruct Hex.
Qed.

Lemma persisted_cons st sd ex log :
  persisted wizard_id st sd (ex :: log)
  = persisted wizard_id (persisted wizard_id st sd [ex]) (record sd ex) log.
Proof.
  unfold persisted. cbn [any_accepted existsb]. rewrite orb_false_r.
  fold (any_accepted log).
  destruct (bool_decide (is_Some (accepted_data ex))) eqn:Hex; cbn [orb].
  - destruct (any_accepted log) eqn:Hlog.
    + rewrite insert_insert_eq. by rewrite recorded_cons.
    + by rewrite recorded_cons, (recorded_none_accepted _ log).
  - by rewrite recorded_cons.
Qed.

Lemma persisted_app st sd log1 log2 :
  persisted wizard_id st sd (log1 ++ log2)
  = persisted wizard_id (persisted wizard_id st sd log1) (recorded sd log1) log2.
Proof.
  revert st sd. induction log1 as [|ex log1 IH]; intros st sd; [done|].
  rewrite <- app_comm_cons, persisted_cons, IH.
  by rewrite (persisted_cons st sd ex log1).
Qed.

Lemma asks_fresh_app sd log1 log2 :
  asks_fresh sd (log1 ++ log2)
  ↔ asks_fresh sd log1 ∧ asks_fresh (recorded sd log1) log2.
Proof.
  revert sd. induction log1 as [|ex log1 IH]; intros sd; cbn.
  - tauto.
  - rewrite IH. tauto.
Qed.

Lemma stores_follow_app st sd log1 log2 :
  stores_follow wizard_id st sd (log1 ++ log2)
  ↔ stores_follow wizard_id st sd log1 ∧
    stores_follow wizard_id (persisted wizard_id st sd log1) (recorded sd log1) log2.
Proof.
  revert st sd. induction log1 as [|ex log1 IH]; intros st sd.
  - cbn. tauto.
  - rewrite <- app_comm_cons. cbn [stores_follow]. rewrite IH.
    rewrite (persisted_cons st sd ex log1), recorded_cons. tauto.
Qed.

(** Answers are only ever added: what the map held stays as it was. *)
Lemma asks_fresh_subseteq sd log : asks_fresh sd log → sd ⊆ recorded sd log.
Proof.
  revert sd. induction log as [|ex log IH]; intros sd; cbn [asks_fresh]; [done|].
  intros [Hnew Hrest]. rewrite recorded_cons.
  etrans; [|by apply IH]. unfold record.
  destruct (accepted_data ex); [|done]. by apply insert_subseteq.
Qed.

(** An exchange whose answer was accepted leaves it in the map. *)
Lemma asks_fresh_accepted sd log i ex data :
  asks_fresh sd log → log !! i = Some ex → accepted_data ex = Some data →
  recorded sd log !! step_id (ex_step ex) = Some data.
Proof.
  revert sd i. induction log as [|ex' log IH]; intros sd i Hfresh Hi Hacc; [done|].
  destruct Hfresh as [_ Hrest]. rewrite recorded_cons. destruct i as [|i].
  - injection Hi as ->.
    eapply lookup_weaken; [|by apply asks_fresh_subseteq].
    unfold record. rewrite Hacc. apply lookup_insert_eq.
  - by eapply IH.
Qed.

Lemma stores_follow_lookup st sd log i ex :
  stores_follow wizard_id st sd log → log !! i = Some ex →
  ex_store ex = persisted wizard_id st sd (take i log).
Proof.
  revert st sd i. induction log as [|ex' log IH]; intros st sd i Hst Hi; [done|].
  destruct Hst as [Hnow Hrest]. destruct i as [|i].
  - by injection Hi as ->.
  - cbn [take]. rewrite persisted_cons. by apply IH.
Qed.
End Logs.

(** ** Sequencing *)

Section Sequencing.
Context {A B C : Type}.

Lemma and_then_assoc (r : Run A) (k : A → Context → Run B) (k' : B → Context → Run C) :
  and_then (and_then r k) k' = and_then r (λ a ctx, and_then (k a ctx) k').
Proof.
  unfold and_then. destruct (outcome r) as [a| |]; cbn; [|done..].
  destruct (outcome (k a (ctx_after r))); cbn; by rewrite ?app_assoc.
Qed.

Lemma and_then_ext (r : Run A) (k k' : A → Context → Run B) :
  (∀ a ctx, k a ctx = k' a ctx) → and_then r k = and_then r k'.
Proof.
  intros Hk. unfold and_then. destruct (outcome r); [|done..]. by rewrite Hk.
Qed.

Lemma and_then_exchanges_prefix (r : Run A) (k : A → Context → Run B) :
  exchanges r `prefix_of` exchanges (and_then r k).
Proof.
  unfold and_then. destruct (outcome r); cbn; [by eexists|done..].
Qed.
End Sequencing.

(** ** The validation loop of one step *)

Ltac loop_cases reply :=
  cbn [elicit_loop];
  destruct reply as [?action ?data|?errors];
  [ destruct (String.eqb _ "accept") eqn:?;
    [| destruct (String.eqb _ "decline") eqn:?;
       [ destruct (is_required _) eqn:?
       | destruct (String.eqb _ "cancel") eqn:? ] ]
  | destruct (error_details _) as [?details|] eqn:? ];
  cbn [outcome ctx_after exchanges after_exchange set_state state replies].

Section Loop.
Context (wizard_id : string) (step : FormStep).
Context (session_data store : gmap string PyVal).

Local Abbreviation loop msg rs :=
  (elicit_loop wizard_id step session_data msg store rs).

(** Every call of one loop is for its step, carries the step's schema
    and sees the store as it was when the loop began. *)
Lemma elicit_loop_calls msg rs :
  Forall (λ ex, ex_step ex = step ∧ ex_response_type ex = schema step ∧
                ex_store ex = store)
    (exchanges (loop msg rs)).
Proof.
  revert msg. induction rs as [|reply rs IH]; intros msg.
  - cbn. by repeat constructor.
  - loop_cases reply; by repeat constructor.
Qed.

(** The loop opens with the message it was started with. *)
Lemma elicit_loop_first msg rs :
  ∃ ex, head (exchanges (loop msg rs)) = Some ex ∧ ex_message ex = msg.
Proof.
  destruct rs as [|reply rs]; [by eexists|].
  loop_cases reply; by eexists.
Qed.

(** An exchange that is not the last one of its loop was a validation
    failure, and the next message is the retry message made from it. *)
Lemma elicit_loop_retry msg rs i ex :
  exchanges (loop msg rs) !! i = Some ex →
  (S i < length (exchanges (loop msg rs)))%nat →
  ∃ errors details ex',
    ex_reply ex = Some (ValidationError errors) ∧
    error_details errors = Some details ∧
    exchanges (loop msg rs) !! S i = Some ex' ∧
    ex_message ex' = retry_message step details.
Proof.
  revert msg i ex. induction rs as [|reply rs IH]; intros msg i ex.
  - cbn. intros _ ?. lia.
  - loop_cases reply; try (cbn; intros _ ?; lia).
    destruct i as [|i]; cbn [lookup list_lookup length].
    + intros [= <-] _.
      destruct (elicit_loop_first (retry_message step details) rs) as (ex' & Hhd & Hmsg).
      exists errors, details, ex'. repeat split; [done| |done].
      by rewrite head_lookup in Hhd.
    + intros Hi Hlen. apply (IH _ i ex Hi). lia.
Qed.

(** A result object ends the loop at once; what happens next depends on
    that reply alone. *)
Lemma elicit_loop_result msg rs i ex action data :
  exchanges (loop msg rs) !! i = Some ex →
  ex_reply ex = Some (Result action data) →
  length (exchanges (loop msg rs)) = S i ∧
  outcome (loop msg rs) = outcome (loop msg [Result action data]) ∧
  state (ctx_after (loop msg rs)) = state (ctx_after (loop msg [Result action data])).
Proof.
  revert msg i ex. induction rs as [|reply rs IH]; intros msg i ex.
  - cbn. destruct i; [|done]. by intros [= <-].
  - loop_cases reply;
      try (destruct i as [|i]; [|done]; intros [= <-]; cbn; intros [= <- <-];
           cbn [elicit_loop]; rewrite ?Heqb, ?Heqb0, ?Heqb1; done).
    destruct i as [|i]; cbn [lookup list_lookup length].
    + by intros [= <-].
    + intros Hi Hre. destruct (IH _ i ex Hi Hre) as (-> & -> & ->).
      split; [done|]. cbn [elicit_loop]. by repeat case_match.
Qed.

(** A call that is still awaited is the last one, and the coroutine is
    suspended with the store as it was. *)
Lemma elicit_loop_awaited msg rs i ex :
  exchanges (loop msg rs) !! i = Some ex →
  ex_reply ex = None →
  length (exchanges (loop msg rs)) = S i ∧
  outcome (loop msg rs) = Suspended ∧
  state (ctx_after (loop msg rs)) = store.
Proof.
  revert msg i ex. induction rs as [|reply rs IH]; intros msg i ex.
  - cbn. destruct i; [|done]. by intros [= <-].
  - loop_cases reply;
      try (destruct i as [|i]; [|done]; by intros [= <-]).
    destruct i as [|i]; cbn [lookup list_lookup length].
    + by intros [= <-].
    + intros Hi Hre. by destruct (IH _ i ex Hi Hre) as (-> & -> & ->).
Qed.

(** A validation failure that ends its loop is one whose listing could not
    be built: indexing an empty location raised. *)
Lemma elicit_loop_validation msg rs i ex errors :
  exchanges (loop msg rs) !! i = Some ex →
  ex_reply ex = Some (ValidationError errors) →
  length (exchanges (loop msg rs)) = S i →
  error_details errors = None ∧ outcome (loop msg rs) = Raise IndexError.
Proof.
  revert msg i ex. induction rs as [|reply rs IH]; intros msg i ex.
  - cbn. destruct i; [|done]. by intros [= <-].
  - destruct reply as [action data|failed]; cbn [elicit_loop].
    + repeat case_match; cbn [exchanges];
        (destruct i as [|i]; [|done]; by intros [= <-]).
    + destruct (error_details failed) as [details|] eqn:Hfailed;
        cbn [outcome exchanges after_exchange].
      * destruct i as [|i]; cbn [lookup list_lookup length].
        -- intros _ _ [= Hlen].
           destruct (elicit_loop_first (retry_message step details) rs)
             as (ex' & Hhd & _).
           apply length_zero_iff_nil in Hlen. by rewrite Hlen in Hhd.
        -- intros Hi Hre [= Hlen]. by apply (IH _ i ex).
      * destruct i as [|i]; [|done]. intros [= <-]. cbn. by intros [= <-].
Qed.

(** The answers a loop returns are those its log records. *)
Lemma elicit_loop_recorded msg rs m :
  outcome (loop msg rs) = Return m →
  m = recorded session_data (exchanges (loop msg rs)).
Proof.
  revert msg. induction rs as [|reply rs IH]; intros msg; [done|].
  loop_cases reply; try done.
  - intros [= <-]. cbn. unfold record, accepted_data; cbn. by rewrite Heqb.
  - intros [= <-]. cbn. unfold record, accepted_data; cbn. by rewrite Heqb.
  - intros H. rewrite recorded_cons, record_not_accepted; [by apply IH|done].
Qed.

(** The store a loop leaves is the one its log accounts for. *)
Lemma elicit_loop_state msg rs :
  state (ctx_after (loop msg rs))
  = persisted wizard_id store session_data (exchanges (loop msg rs)).
Proof.
  revert msg. induction rs as [|reply rs IH]; intros msg; [done|].
  loop_cases reply;
    first [ rewrite persisted_cons, IH; by rewrite record_not_accepted
          | unfold persisted, any_accepted, recorded, record, accepted_data; cbn;
            by rewrite ?Heqb ].
Qed.

(** Within a loop nothing is accepted before the last exchange. *)
Lemma elicit_loop_fresh msg rs :
  session_data !! step_id step = None →
  asks_fresh session_data (exchanges (loop msg rs)).
Proof.
  intros Hnew. revert msg. induction rs as [|reply rs IH]; intros msg; [done|].
  loop_cases reply; done.
Qed.

Lemma elicit_loop_stores msg rs :
  stores_follow wizard_id store session_data (exchanges (loop msg rs)).
Proof.
  revert msg. induction rs as [|reply rs IH]; intros msg; [done|].
  loop_cases reply; done.
Qed.

(** The replies in the log are the ones consumed, in their order. *)
Lemma elicit_loop_replies msg rs :
  (omap ex_reply (exchanges (loop msg rs)) ++ replies (ctx_after (loop msg rs)))%list
  = rs.
Proof.
  revert msg. induction rs as [|reply rs IH]; intros msg; [done|].
  loop_cases reply; try done.
  cbn. by rewrite IH.
Qed.
End Loop.

(** ** One step, then all of them *)

Ltac and_then_cases :=
  unfold and_then;
  match goal with
  | |- context [outcome (run_step ?w ?s ?sd ?ctx)] =>
      let H := fresh "Hstep" in
      destruct (outcome (run_step w s sd ctx)) as [?m1| |] eqn:H
  end;
  cbn [outcome ctx_after exchanges].

Section Steps.
Context (wizard_id : string).
Implicit Types (step : FormStep) (steps : list FormStep).
Implicit Types (sd : gmap string PyVal) (ctx : Context).

Lemma answered_false step sd :
  answered step sd = false → sd !! step_id step = None.
Proof.
  unfold answered. intros H%bool_decide_eq_false.
  by apply eq_None_not_Some.
Qed.

(** A step that is already answered, or hidden, costs nothing. *)
Lemma run_step_skip step sd ctx :
  answered step sd = true ∨ hidden step sd = true →
  run_step wizard_id step sd ctx
  = {| outcome := Return sd; ctx_after := ctx; exchanges := [] |}.
Proof.
  unfold run_step. intros [->| ->]; [done|]. by destruct (answered step sd).
Qed.

Lemma run_step_ask step sd ctx :
  answered step sd = false → hidden step sd = false →
  run_step wizard_id step sd ctx
  = elicit_loop wizard_id step sd (message step) (state ctx) (replies ctx).
Proof. unfold run_step. by intros -> ->. Qed.

(** A step that asked something was neither answered nor hidden. *)
Lemma run_step_asked step sd ctx :
  exchanges (run_step wizard_id step sd ctx) ≠ [] →
  answered step sd = false ∧ hidden step sd = false.
Proof.
  unfold run_step.
  destruct (answered step sd); [done|]. by destruct (hidden step sd).
Qed.

Lemma run_step_calls step sd ctx :
  Forall (λ ex, ex_step ex = step) (exchanges (run_step wizard_id step sd ctx)).
Proof.
  unfold run_step.
  destruct (answered step sd); [by constructor|].
  destruct (hidden step sd); [by constructor|].
  eapply Forall_impl; [apply elicit_loop_calls|]. by intros ex (? & _).
Qed.

Lemma run_step_recorded step sd ctx m :
  outcome (run_step wizard_id step sd ctx) = Return m →
  m = recorded sd (exchanges (run_step wizard_id step sd ctx)).
Proof.
  unfold run_step.
  destruct (answered step sd); [by intros [= <-]|].
  destruct (hidden step sd); [by intros [= <-]|].
  apply elicit_loop_recorded.
Qed.

Lemma run_step_state step sd ctx :
  state (ctx_after (run_step wizard_id step sd ctx))
  = persisted wizard_id (state ctx) sd (exchanges (run_step wizard_id step sd ctx)).
Proof.
  unfold run_step.
  destruct (answered step sd); [done|].
  destruct (hidden step sd); [done|].
  apply elicit_loop_state.
Qed.

Lemma run_step_fresh step sd ctx :
  asks_fresh sd (exchanges (run_step wizard_id step sd ctx)).
Proof.
  unfold run_step.
  destruct (answered step sd) eqn:Hans; [done|].
  destruct (hidden step sd); [done|].
  by apply elicit_loop_fresh, answered_false.
Qed.

Lemma run_step_stores step sd ctx :
  stores_follow wizard_id (state ctx) sd (exchanges (run_step wizard_id step sd ctx)).
Proof.
  unfold run_step.
  destruct (answered step sd); [done|].
  destruct (hidden step sd); [done|].
  apply elicit_loop_stores.
Qed.

Lemma run_step_replies step sd ctx :
  (omap ex_reply (exchanges (run_step wizard_id step sd ctx))
     ++ replies (ctx_after (run_step wizard_id step sd ctx)))%list
  = replies ctx.
Proof.
  unfold run_step.
  destruct (answered step sd); [done|].
  destruct (hidden step sd); [done|].
  apply elicit_loop_replies.
Qed.

(** A step only stops the run at a question. *)
Lemma run_step_silent step sd ctx :
  exchanges (run_step wizard_id step sd ctx) = [] →
  run_step wizard_id step sd ctx
  = {| outcome := Return sd; ctx_after := ctx; exchanges := [] |}.
Proof.
  unfold run_step.
  destruct (answered step sd); [done|].
  destruct (hidden step sd); [done|].
  intros Hnil.
  destruct (elicit_loop_first wizard_id step sd (state ctx) (message step) (replies ctx))
    as (ex & Hhd & _).
  by rewrite Hnil in Hhd.
Qed.

Lemma run_steps_app steps1 steps2 sd ctx :
  run_steps wizard_id (steps1 ++ steps2) sd ctx
  = and_then (run_steps wizard_id steps1 sd ctx) (run_steps wizard_id steps2).
Proof.
  revert sd ctx. induction steps1 as [|step steps1 IH]; intros sd ctx.
  - cbn. unfold and_then; cbn. by destruct (run_steps wizard_id steps2 sd ctx).
  - cbn [app run_steps]. rewrite and_then_assoc.
    apply and_then_ext. intros. apply IH.
Qed.
End Steps.

Section WholeLoop.
Context (wizard_id : string).
Implicit Types (step : FormStep) (steps : list FormStep).
Implicit Types (sd : gmap string PyVal) (ctx : Context).

Lemma run_steps_recorded steps sd ctx m :
  outcome (run_steps wizard_id steps sd ctx) = Return m →
  m = recorded sd (exchanges (run_steps wizard_id steps sd ctx)).
Proof.
  revert sd ctx. induction steps as [|step steps IH]; intros sd ctx.
  - by intros [= <-].
  - cbn [run_steps]. and_then_cases; [|done..].
    intros Hrest. rewrite recorded_app.
    rewrite <- (run_step_recorded _ _ _ _ _ Hstep). by apply IH.
Qed.

Lemma run_steps_state steps sd ctx :
  state (ctx_after (run_steps wizard_id steps sd ctx))
  = persisted wizard_id (state ctx) sd (exchanges (run_steps wizard_id steps sd ctx)).
Proof.
  revert sd ctx. induction steps as [|step steps IH]; intros sd ctx; [done|].
  cbn [run_steps]. and_then_cases; try apply run_step_state.
  rewrite persisted_app, IH, <- run_step_state.
  by rewrite <- (run_step_recorded _ _ _ _ _ Hstep).
Qed.

Lemma run_steps_fresh steps sd ctx :
  asks_fresh sd (exchanges (run_steps wizard_id steps sd ctx)).
Proof.
  revert sd ctx. induction steps as [|step steps IH]; intros sd ctx; [done|].
  cbn [run_steps]. and_then_cases; try apply run_step_fresh.
  apply asks_fresh_app. split; [apply run_step_fresh|].
  rewrite <- (run_step_recorded _ _ _ _ _ Hstep). apply IH.
Qed.

Lemma run_steps_stores steps sd ctx :
  stores_follow wizard_id (state ctx) sd (exchanges (run_steps wizard_id steps sd ctx)).
Proof.
  revert sd ctx. induction steps as [|step steps IH]; intros sd ctx; [done|].
  cbn [run_steps]. and_then_cases; try apply run_step_stores.
  apply stores_follow_app. split; [apply run_step_stores|].
  rewrite <- (run_step_recorded _ _ _ _ _ Hstep), <- run_step_state. apply IH.
Qed.

Lemma run_steps_replies steps sd ctx :
  (omap ex_reply (exchanges (run_steps wizard_id steps sd ctx))
     ++ replies (ctx_after (run_steps wizard_id steps sd ctx)))%list
  = replies ctx.
Proof.
  revert sd ctx. induction steps as [|step steps IH]; intros sd ctx; [done|].
  cbn [run_steps]. and_then_cases; try apply run_step_replies.
  rewrite omap_app, <- app_assoc, IH. apply run_step_replies.
Qed.

(** The loop over the steps stops early only at a question. *)
Lemma run_steps_silent steps sd ctx :
  exchanges (run_steps wizard_id steps sd ctx) = [] →
  ∃ m, outcome (run_steps wizard_id steps sd ctx) = Return m.
Proof.
  revert sd ctx. induction steps as [|step steps IH]; intros sd ctx; [by eexists|].
  cbn [run_steps]. and_then_cases.
  - intros [_ Hnil]%app_eq_nil. by apply IH.
  - intros Hnil. apply run_step_silent in Hnil. by rewrite Hnil in Hstep.
  - intros Hnil. apply run_step_silent in Hnil. by rewrite Hnil in Hstep.
Qed.

Lemma run_steps_calls steps sd ctx :
  Forall (λ ex, ex_step ex ∈ steps) (exchanges (run_steps wizard_id steps sd ctx)).
Proof.
  revert sd ctx. induction steps as [|step steps IH]; intros sd ctx; [by constructor|].
  assert (Forall (λ ex, ex_step ex ∈ step :: steps)
            (exchanges (run_step wizard_id step sd ctx))) as Hhere.
  { eapply Forall_impl; [apply run_step_calls|]. intros ex ->. left. }
  cbn [run_steps]. and_then_cases; [|done..].
  apply Forall_app. split; [done|].
  eapply Forall_impl; [apply IH|]. intros ex ?. by right.
Qed.

Lemma zip_with_replicate_zero steps :
  concat (zip_with replicate (replicate (length steps) 0%nat) steps) = [].
Proof. induction steps; [done|]. cbn. done. Qed.

Lemma run_steps_order steps sd ctx :
  in_registration_order steps
    (ex_step <$> exchanges (run_steps wizard_id steps sd ctx)).
Proof.
  revert sd ctx. induction steps as [|step steps IH]; intros sd ctx.
  - by exists [].
  - assert (ex_step <$> exchanges (run_step wizard_id step sd ctx)
            = replicate (length (exchanges (run_step wizard_id step sd ctx))) step)
      as Hhere.
    { generalize (run_step_calls wizard_id step sd ctx).
      induction 1 as [|ex log Hex _ IHlog]; [done|]. cbn. by rewrite Hex, IHlog. }
    cbn [run_steps]. and_then_cases.
    + destruct (IH m1 (ctx_after (run_step wizard_id step sd ctx))) as (counts & Hlen & Hrest).
      exists (length (exchanges (run_step wizard_id step sd ctx)) :: counts).
      split; [cbn; by rewrite Hlen|].
      rewrite fmap_app, Hhere, Hrest. done.
    + exists (length (exchanges (run_step wizard_id step sd ctx))
              :: replicate (length steps) 0%nat).
      split; [cbn; by rewrite length_replicate|].
      cbn [zip_with concat]. by rewrite zip_with_replicate_zero, app_nil_r.
    + exists (length (exchanges (run_step wizard_id step sd ctx))
              :: replicate (length steps) 0%nat).
      split; [cbn; by rewrite length_replicate|].
      cbn [zip_with concat]. by rewrite zip_with_replicate_zero, app_nil_r.
Qed.

(** Every exchange of a run belongs to the validation loop of one
    registered step, which the steps before it reached by returning. *)
Lemma run_steps_locate steps sd ctx i ex :
  exchanges (run_steps wizard_id steps sd ctx) !! i = Some ex →
  ∃ pre step post sd' j,
    let before := run_steps wizard_id pre sd ctx in
    let ctx' := ctx_after before in
    steps = (pre ++ step :: post)%list ∧
    outcome before = Return sd' ∧
    answered step sd' = false ∧ hidden step sd' = false ∧
    i = (length (exchanges before) + j)%nat ∧
    exchanges (elicit_loop wizard_id step sd' (message step) (state ctx') (replies ctx'))
      !! j = Some ex.
Proof.
  revert sd ctx i. induction steps as [|step steps IH]; intros sd ctx i; [done|].
  assert (∀ j, exchanges (run_step wizard_id step sd ctx) !! j = Some ex →
            ∃ pre step0 post sd' j0,
              let before := run_steps wizard_id pre sd ctx in
              let ctx' := ctx_after before in
              step :: steps = (pre ++ step0 :: post)%list ∧
              outcome before = Return sd' ∧
              answered step0 sd' = false ∧ hidden step0 sd' = false ∧
              j = (length (exchanges before) + j0)%nat ∧
              exchanges (elicit_loop wizard_id step0 sd' (message step0)
                           (state ctx') (replies ctx')) !! j0 = Some ex) as Hhere.
  { intros j Hj. exists [], step, steps, sd, j. cbn.
    destruct (run_step_asked wizard_id step sd ctx) as [Hans Hhid].
    { intros Hnil. by rewrite Hnil in Hj. }
    repeat split; try done. by rewrite run_step_ask in Hj. }
  cbn [run_steps]. and_then_cases; [|apply Hhere..].
  intros Hi. apply lookup_app_Some in Hi as [Hi|[Hge Hi]]; [by apply Hhere|].
  destruct (IH _ _ _ Hi) as (pre & step0 & post & sd' & j & Hsteps & Hret & Hans & Hhid & Hidx & Hj).
  exists (step :: pre), step0, post, sd', j. cbn zeta.
  cbn [run_steps]. unfold and_then. rewrite Hstep. cbn [outcome ctx_after exchanges].
  repeat split; try done.
  - by rewrite Hsteps.
  - rewrite length_app. lia.
Qed.

(** The run around one loop: the steps before it returned, so the rest of
    the run is that loop followed by the remaining steps. *)
Lemma run_steps_around pre step post sd ctx sd' :
  let before := run_steps wizard_id pre sd ctx in
  let ctx' := ctx_after before in
  let rest :=
    and_then (elicit_loop wizard_id step sd' (message step) (state ctx') (replies ctx'))
      (run_steps wizard_id post) in
  outcome before = Return sd' →
  answered step sd' = false → hidden step sd' = false →
  outcome (run_steps wizard_id (pre ++ step :: post) sd ctx) = outcome rest ∧
  ctx_after (run_steps wizard_id (pre ++ step :: post) sd ctx) = ctx_after rest ∧
  exchanges (run_steps wizard_id (pre ++ step :: post) sd ctx)
  = (exchanges before ++ exchanges rest)%list.
Proof.
  intros before ctx' rest Hret Hans Hhid.
  rewrite run_steps_app. unfold and_then at 1 2 3. fold before. rewrite Hret.
  cbn [outcome ctx_after exchanges run_steps]. fold ctx'.
  by rewrite run_step_ask.
Qed.
End WholeLoop.

(** ** execute *)

Section Execute.
Context (self : WizardManager).
Implicit Types (ctx : Context) (sd : gmap string PyVal).

Local Abbreviation wid := (wizard_id self).
Local Abbreviation the_loop ctx :=
  (run_steps wid (steps self) (load_session ctx wid) ctx).

Lemma execute_exchanges ctx : exchanges (execute self ctx) = exchanges (the_loop ctx).
Proof.
  unfold execute, and_then. destruct (outcome (the_loop ctx)); cbn; [|done..].
  apply app_nil_r.
Qed.

Lemma execute_outcome ctx : outcome (execute self ctx) = outcome (the_loop ctx).
Proof. unfold execute, and_then. by destruct (outcome (the_loop ctx)). Qed.

Lemma execute_state_return ctx m :
  outcome (execute self ctx) = Return m →
  state (ctx_after (execute self ctx)) = <[wid := VDict ∅]> (state ctx).
Proof.
  rewrite execute_outcome. unfold execute, and_then. intros ->. cbn.
  rewrite run_steps_state. unfold persisted.
  destruct (any_accepted _); [|done]. apply insert_insert_eq.
Qed.

Lemma execute_state_partial ctx :
  (∀ m, outcome (execute self ctx) ≠ Return m) →
  state (ctx_after (execute self ctx))
  = persisted wid (state ctx) (load_session ctx wid) (exchanges (execute self ctx)).
Proof.
  rewrite execute_exchanges, execute_outcome, <- run_steps_state.
  unfold execute, and_then. destruct (outcome (the_loop ctx)); [|done..].
  intros H. by destruct (H a).
Qed.

Lemma execute_recorded ctx m :
  outcome (execute self ctx) = Return m →
  m = recorded (load_session ctx wid) (exchanges (execute self ctx)).
Proof. rewrite execute_outcome, execute_exchanges. apply run_steps_recorded. Qed.
End Execute.

(** The stored value decides what [execute] starts from. *)
Lemma load_session_dict ctx wizard_id d :
  state ctx !! wizard_id = Some (VDict d) → load_session ctx wizard_id = d.
Proof.
  unfold load_session, get_state, py_or. intros ->. cbn.
  case_bool_decide as Hd; cbn; by rewrite ?Hd.
Qed.

Lemma load_session_state ctx ctx' wizard_id :
  state ctx = state ctx' → load_session ctx wizard_id = load_session ctx' wizard_id.
Proof. unfold load_session, get_state. by intros ->. Qed.

Lemma load_session_persisted wizard_id ctx ctx' log :
  state ctx' = persisted wizard_id (state ctx) (load_session ctx wizard_id) log →
  load_session ctx' wizard_id = recorded (load_session ctx wizard_id) log.
Proof.
  unfold persisted. destruct (any_accepted log) eqn:Hacc; intros Hst.
  - apply load_session_dict. rewrite Hst. apply lookup_insert_eq.
  - rewrite recorded_none_accepted by done. by apply load_session_state.
Qed.

(** Keys that no exchange of the log asks for keep their value. *)
Lemma recorded_lookup_other (sd : gmap string PyVal) log k :
  Forall (λ ex, is_Some (accepted_data ex) → step_id (ex_step ex) ≠ k) log →
  recorded sd log !! k = sd !! k.
Proof.
  revert sd. induction log as [|ex log IH]; intros sd Hlog; [done|].
  apply Forall_cons in Hlog as [Hex Hlog].
  rewrite recorded_cons, IH by done. unfold record.
  destruct (accepted_data ex); [|done]. apply lookup_insert_ne. by apply Hex.
Qed.

(** No exchange asks for a key that the answers held from the start. *)
Lemma asks_fresh_initial (sd : gmap string PyVal) log ex :
  asks_fresh sd log → ex ∈ log → sd !! step_id (ex_step ex) = None.
Proof.
  revert sd. induction log as [|ex' log IH]; intros sd Hfresh Hin.
  - by apply elem_of_nil in Hin.
  - destruct Hfresh as [Hnew Hrest].
    apply elem_of_cons in Hin as [->|Hin]; [done|].
    specialize (IH _ Hrest Hin). unfold record in IH.
    destruct (accepted_data ex'); [|done].
    apply lookup_insert_None in IH. tauto.
Qed.

Lemma elicit_loop_raise_state wizard_id step sd msg st action data e :
  outcome (elicit_loop wizard_id step sd msg st [Result action data]) = Raise e →
  state (ctx_after (elicit_loop wizard_id step sd msg st [Result action data])) = st.
Proof. cbn [elicit_loop]. by repeat case_match. Qed.

(** A result object on which the loop raises ends the whole run there. *)
Lemma run_steps_raise wizard_id steps sd ctx i ex action data e :
  exchanges (run_steps wizard_id steps sd ctx) !! i = Some ex →
  ex_reply ex = Some (Result action data) →
  (∀ sd' msg st,
     outcome (elicit_loop wizard_id (ex_step ex) sd' msg st [Result action data])
     = Raise e) →
  outcome (run_steps wizard_id steps sd ctx) = Raise e ∧
  length (exchanges (run_steps wizard_id steps sd ctx)) = S i ∧
  state (ctx_after (run_steps wizard_id steps sd ctx)) = ex_store ex.
Proof.
  intros Hi Hre Hraise.
  destruct (run_steps_locate _ _ _ _ _ _ Hi)
    as (pre & step & post & sd' & j & Hsteps & Hret & Hans & Hhid & -> & Hj).
  cbn zeta in *.
  destruct (run_steps_around wizard_id pre step post sd ctx sd' Hret Hans Hhid)
    as (Hout & Hctx & Hlog).
  rewrite Hsteps, Hout, Hctx, Hlog. clear Hout Hctx Hlog.
  pose proof (elicit_loop_calls wizard_id step sd'
                (state (ctx_after (run_steps wizard_id pre sd ctx)))
                (message step) (replies (ctx_after (run_steps wizard_id pre sd ctx))))
    as Hcalls.
  rewrite Forall_lookup in Hcalls. destruct (Hcalls _ _ Hj) as (Hstep & _ & Hstore).
  clear Hcalls. subst step.
  destruct (elicit_loop_result _ _ _ _ _ _ _ _ _ _ Hj Hre) as (Hlen & Hout & Hst).
  rewrite Hraise in Hout.
  unfold and_then. rewrite Hout. cbn [outcome ctx_after exchanges].
  rewrite length_app, Hlen. repeat split; [lia|].
  rewrite Hst, Hstore. eapply elicit_loop_raise_state. apply Hraise.
Qed.

(** *** Required decline, cancel *)

(** C3. When the client declines a step that is required, [execute] raises
    [McpError(-32600, "Required step '<step_id>' declined.")], and that
    exchange is the last one of the run: no further step is asked. *)
Theorem required_decline_aborts (self : WizardManager) (ctx : Context)
    (i : nat) (ex : Exchange) (data : PyVal) :
  exchanges (execute self ctx) !! i = Some ex →
  ex_reply ex = Some (Result "decline" data) →
  is_required (ex_step ex) = true →
  outcome (execute self ctx)
  = Raise (McpError (-32600)
             ("Required step '" +:+ step_id (ex_step ex) +:+ "' declined.")) ∧
  length (exchanges (execute self ctx)) = S i.
Proof.
  rewrite execute_exchanges, execute_outcome. intros Hi Hre Hreq.
  edestruct run_steps_raise as (Hout & Hlen & _); [exact Hi|exact Hre| |by split].
  intros sd' msg st. cbn [elicit_loop]. cbn. by rewrite Hreq.
Qed.

(** C4. A cancel at any exchange, whatever the step and its required flag,
    makes [execute] raise [McpError(-32000, ...)]; the exchange is the last
    one of the run, and the store is left as that exchange saw it, with
    every accepted answer of the run in it: the entry is not cleared. *)
Theorem cancel_aborts (self : WizardManager) (ctx : Context)
    (i : nat) (ex : Exchange) (data : PyVal) :
  exchanges (execute self ctx) !! i = Some ex →
  ex_reply ex = Some (Result "cancel" data) →
  outcome (execute self ctx)
  = Raise (McpError (-32000) "Workflow aborted by user cancellation.") ∧
  length (exchanges (execute self ctx)) = S i ∧
  state (ctx_after (execute self ctx)) = ex_store ex ∧
  state (ctx_after (execute self ctx))
  = persisted (wizard_id self) (state ctx) (load_session ctx (wizard_id self))
      (exchanges (execute self ctx)).
Proof.
  intros Hi Hre.
  assert (outcome (execute self ctx)
          = Raise (McpError (-32000) "Workflow aborted by user cancellation.") ∧
          length (exchanges (execute self ctx)) = S i ∧
          state (ctx_after (run_steps (wizard_id self) (steps self)
                   (load_session ctx (wizard_id self)) ctx)) = ex_store ex)
    as (Hout & Hlen & Hst).
  { rewrite execute_exchanges in Hi. rewrite execute_exchanges, execute_outcome.
    eapply run_steps_raise; [exact Hi|exact Hre|done]. }
  assert (∀ m, outcome (execute self ctx) ≠ Return m) as Hpartial
    by (intros m; by rewrite Hout).
  repeat split; [done|done| |by apply execute_state_partial].
  rewrite <- Hst. rewrite execute_outcome in Hout.
  unfold execute, and_then. by rewrite Hout.
Qed.

(** *** Resuming, persisting, completing *)

(** Whatever the store holds for the wizard when [execute] starts, a key of
    the loaded mapping is never asked for, and comes back with its value. *)
Lemma loaded_keys_kept (self : WizardManager) (ctx : Context) (k : string) (v : PyVal) :
  load_session ctx (wizard_id self) !! k = Some v →
  (∀ ex, ex ∈ exchanges (execute self ctx) → step_id (ex_step ex) ≠ k) ∧
  (∀ m, outcome (execute self ctx) = Return m → m !! k = Some v).
Proof.
  intros Hk.
  pose proof (run_steps_fresh (wizard_id self) (steps self)
                (load_session ctx (wizard_id self)) ctx) as Hfresh.
  rewrite <- execute_exchanges in Hfresh. split.
  - intros ex Hin Heq.
    pose proof (asks_fresh_initial _ _ _ Hfresh Hin) as Hnone.
    rewrite Heq, Hk in Hnone. done.
  - intros m Hm. rewrite (execute_recorded _ _ _ Hm).
    eapply lookup_weaken; [exact Hk|]. by apply asks_fresh_subseteq.
Qed.

(** The replies in the log of a run are the replies the client sent, in
    their order; the others are still to come. *)
Lemma execute_replies (self : WizardManager) (ctx : Context) :
  (omap ex_reply (exchanges (execute self ctx))
     ++ replies (ctx_after (execute self ctx)))%list
  = replies ctx.
Proof.
  pose proof (run_steps_replies (wizard_id self) (steps self)
                (load_session ctx (wizard_id self)) ctx) as Hloop.
  unfold execute, and_then.
  destruct (outcome (run_steps _ _ _ _));
    cbn [exchanges ctx_after set_state replies]; by rewrite ?app_nil_r.
Qed.

(** C1. Steps are asked in registration order.  When a run stops part-way
    (it raises, or stays suspended) and [execute] is invoked again on the
    store that run left behind, the second run asks nothing for a key of
    the loaded session mapping and returns that key's value unchanged.
    Every answer the first run accepted is in that mapping: the second run
    does not ask for it again and returns the same value for it. *)
Theorem execute_resumes (self : WizardManager) (ctx : Context)
    (later : list ElicitReply) :
  let first := execute self ctx in
  let ctx2 := {| state := state (ctx_after first); replies := later |} in
  let second := execute self ctx2 in
  (∀ m, outcome first ≠ Return m) →
  in_registration_order (steps self) (ex_step <$> exchanges first) ∧
  in_registration_order (steps self) (ex_step <$> exchanges second) ∧
  (∀ k v, load_session ctx2 (wizard_id self) !! k = Some v →
     (∀ ex2, ex2 ∈ exchanges second → step_id (ex_step ex2) ≠ k) ∧
     (∀ m, outcome second = Return m → m !! k = Some v)) ∧
  (∀ ex1 data, ex1 ∈ exchanges first →
     ex_reply ex1 = Some (Result "accept" data) →
     load_session ctx2 (wizard_id self) !! step_id (ex_step ex1) = Some data ∧
     (∀ ex2, ex2 ∈ exchanges second →
        step_id (ex_step ex2) ≠ step_id (ex_step ex1)) ∧
     (∀ m, outcome second = Return m → m !! step_id (ex_step ex1) = Some data)).
Proof.
  intros first ctx2 second Hpartial.
  split; [|split; [|split]].
  - unfold first. rewrite execute_exchanges. apply run_steps_order.
  - unfold second. rewrite execute_exchanges. apply run_steps_order.
  - intros k v. apply loaded_keys_kept.
  - intros ex1 data Hin Hre.
    assert (load_session ctx2 (wizard_id self) !! step_id (ex_step ex1) = Some data)
      as Hloaded.
    { rewrite (load_session_persisted (wizard_id self) ctx ctx2 (exchanges first))
        by (by apply execute_state_partial).
      apply list_elem_of_lookup in Hin as [i Hi].
      apply (asks_fresh_accepted _ _ i); [|done|].
      + unfold first. rewrite execute_exchanges. apply run_steps_fresh.
      + unfold accepted_data. by rewrite Hre. }
    split; [done|]. by apply loaded_keys_kept.
Qed.




(** C7. After a run that completes, the entry of the wizard in the store is
    the empty mapping, while the returned map holds every accepted answer.
    A later [execute] on that store loads nothing: its first question is
    the first registered step that is not hidden on empty answers, even if
    that step was answered before. *)
Theorem completion_clears_session (self : WizardManager) (ctx : Context)
    (m : gmap string PyVal) (later : list ElicitReply) :
  let run := execute self ctx in
  let ctx2 := {| state := state (ctx_after run); replies := later |} in
  outcome run = Return m →
  state (ctx_after run) = <[wizard_id self := VDict ∅]> (state ctx) ∧
  (∀ ex data, ex ∈ exchanges run → ex_reply ex = Some (Result "accept" data) →
     m !! step_id (ex_step ex) = Some data) ∧
  load_session ctx2 (wizard_id self) = ∅ ∧
  (∀ pre step post,
     steps self = (pre ++ step :: post)%list →
     Forall (λ p, hidden p ∅ = true) pre → hidden step ∅ = false →
     ∃ ex, head (exchanges (execute self ctx2)) = Some ex ∧
           ex_step ex = step ∧ ex_message ex = message step).
Proof.
  intros run ctx2 Hm.
  assert (load_session ctx2 (wizard_id self) = ∅) as Hload.
  { apply load_session_dict. unfold ctx2. cbn [state].
    unfold run. rewrite (execute_state_return _ _ _ Hm).
    apply lookup_insert_eq. }
  split; [by eapply execute_state_return|split; [|split; [done|]]].
  - intros ex data Hin Hre. rewrite (execute_recorded _ _ _ Hm).
    apply list_elem_of_lookup in Hin as [i Hi].
    apply (asks_fresh_accepted _ _ i); [|done|].
    + rewrite execute_exchanges. apply run_steps_fresh.
    + unfold accepted_data. by rewrite Hre.
  - intros pre step post Hsteps Hpre Hstep.
    rewrite execute_exchanges, Hload, Hsteps.
    assert (run_steps (wizard_id self) pre ∅ ctx2
            = {| outcome := Return ∅; ctx_after := ctx2; exchanges := [] |}) as Hskip.
    { clear Hsteps. induction Hpre as [|p pre Hp _ IH]; [done|].
      cbn [run_steps]. rewrite run_step_skip by (by right).
      unfold and_then; cbn. by rewrite IH. }
    destruct (run_steps_around (wizard_id self) pre step post ∅ ctx2 ∅)
      as (_ & _ & ->); [by rewrite Hskip|done|done|].
    rewrite Hskip. cbn [exchanges ctx_after app].
    destruct (elicit_loop_first (wizard_id self) step ∅ (state ctx2) (message step)
                (replies ctx2)) as (ex & Hhd & Hmsg).
    exists ex. split; [|split; [|done]].
    + destruct (and_then_exchanges_prefix
                  (elicit_loop (wizard_id self) step ∅ (message step)
                     (state ctx2) (replies ctx2))
                  (run_steps (wizard_id self) post)) as [more ->].
      destruct (exchanges (elicit_loop _ _ _ _ _ _)); [done|]. exact Hhd.
    + pose proof (elicit_loop_calls (wizard_id self) step ∅ (state ctx2)
                    (message step) (replies ctx2)) as Hcalls.
      rewrite head_lookup in Hhd. rewrite Forall_lookup in Hcalls.
      by destruct (Hcalls _ _ Hhd).
Qed.

(** C10. When the store holds a mapping for the wizard, a run that
    completes returns that mapping updated with the answers accepted in
    the run: the stored keys keep their values, and a key that belongs to
    no registered step comes back exactly as stored.  With no step
    registered, [execute] asks nothing, returns the stored mapping and
    resets the entry to the empty mapping. *)
Theorem stale_keys_returned (self : WizardManager) (ctx : Context)
    (stored : gmap string PyVal) :
  state ctx !! wizard_id self = Some (VDict stored) →
  (∀ m, outcome (execute self ctx) = Return m →
     m = recorded stored (exchanges (execute self ctx)) ∧
     stored ⊆ m ∧
     (∀ k, k ∉ step_id <$> steps self → m !! k = stored !! k)) ∧
  (steps self = [] →
     outcome (execute self ctx) = Return stored ∧
     exchanges (execute self ctx) = [] ∧
     state (ctx_after (execute self ctx)) = <[wizard_id self := VDict ∅]> (state ctx)).
Proof.
  intros Hstored. pose proof (load_session_dict _ _ _ Hstored) as Hload. split.
  - intros m Hm. pose proof (execute_recorded _ _ _ Hm) as Hrec.
    rewrite Hload in Hrec. split; [done|]. split.
    + rewrite Hrec. apply asks_fresh_subseteq.
      rewrite execute_exchanges, Hload. apply run_steps_fresh.
    + intros k Hk. rewrite Hrec. apply recorded_lookup_other.
      rewrite execute_exchanges.
      eapply Forall_impl; [apply run_steps_calls|].
      intros ex Hin _ <-. apply Hk. by apply list_elem_of_fmap_2.
  - intros Hnil. unfold execute. rewrite Hnil, Hload. cbn. done.
Qed.

(** *** Hidden steps, optional declines *)

Lemma unique_ids_split (pre post : list FormStep) (step : FormStep) :
  NoDup (step_id <$> (pre ++ step :: post)%list) →
  (∀ p, p ∈ pre → step_id p ≠ step_id step) ∧
  (∀ p, p ∈ post → step_id p ≠ step_id step).
Proof.
  rewrite fmap_app, fmap_cons. intros (_ & Hpre & Hpost)%NoDup_app.
  apply NoDup_cons in Hpost as [Hpost _]. split.
  - intros p Hp Heq. apply (Hpre (step_id p)); [by apply list_elem_of_fmap_2|].
    rewrite Heq. left.
  - intros p Hp Heq. apply Hpost. rewrite <- Heq. by apply list_elem_of_fmap_2.
Qed.

Lemma run_steps_asks_only wizard_id steps sd ctx (k : string) :
  (∀ p, p ∈ steps → step_id p ≠ k) →
  Forall (λ ex, is_Some (accepted_data ex) → step_id (ex_step ex) ≠ k)
    (exchanges (run_steps wizard_id steps sd ctx)).
Proof.
  intros Hk. eapply Forall_impl; [apply run_steps_calls|].
  intros ex Hin _. by apply Hk.
Qed.

(** C2, as the code has it. When a step is reached with answers on which
    its condition is false, that turn of the loop asks nothing, records
    nothing and leaves the context as it is.  If the step_ids of the
    wizard are unique, no exchange of the whole run is for that step_id;
    and if the answers did not already hold the step_id when the step was
    reached and no later step shares it, the returned map does not hold
    it either. *)
Theorem hidden_step_not_asked (self : WizardManager) (ctx : Context)
    (pre post : list FormStep) (step : FormStep)
    (c : gmap string PyVal → bool) (answers : gmap string PyVal) :
  let before :=
    run_steps (wizard_id self) pre (load_session ctx (wizard_id self)) ctx in
  steps self = (pre ++ step :: post)%list →
  outcome before = Return answers →
  condition step = Some c →
  c answers = false →
  run_step (wizard_id self) step answers (ctx_after before)
  = {| outcome := Return answers; ctx_after := ctx_after before; exchanges := [] |} ∧
  (NoDup (step_id <$> steps self) →
     ∀ ex, ex ∈ exchanges (execute self ctx) → step_id (ex_step ex) ≠ step_id step) ∧
  (answers !! step_id step = None →
     (∀ p, p ∈ post → step_id p ≠ step_id step) →
     ∀ m, outcome (execute self ctx) = Return m → m !! step_id step = None).
Proof.
  intros before Hsteps Hret Hcond Hfalse.
  assert (run_step (wizard_id self) step answers (ctx_after before)
          = {| outcome := Return answers; ctx_after := ctx_after before;
               exchanges := [] |}) as Hskip.
  { apply run_step_skip. right. unfold hidden. by rewrite Hcond, Hfalse. }
  assert (outcome (execute self ctx)
          = outcome (run_steps (wizard_id self) post answers (ctx_after before)) ∧
          exchanges (execute self ctx)
          = (exchanges before
               ++ exchanges (run_steps (wizard_id self) post answers (ctx_after before)))%list)
    as [Hout Hlog].
  { rewrite execute_outcome, execute_exchanges, Hsteps, run_steps_app.
    unfold and_then at 1 2. fold before. rewrite Hret.
    cbn [outcome exchanges run_steps]. rewrite Hskip.
    unfold and_then. by cbn. }
  split; [done|split].
  - intros Hnodup ex Hin. rewrite Hsteps in Hnodup.
    destruct (unique_ids_split _ _ _ Hnodup) as [Hpre Hpost].
    rewrite Hlog in Hin. apply elem_of_app in Hin as [Hin|Hin].
    + apply Hpre.
      pose proof (run_steps_calls (wizard_id self) pre
                    (load_session ctx (wizard_id self)) ctx) as Hcalls.
      rewrite Forall_forall in Hcalls. by apply Hcalls.
    + apply Hpost.
      pose proof (run_steps_calls (wizard_id self) post answers (ctx_after before))
        as Hcalls.
      rewrite Forall_forall in Hcalls. by apply Hcalls.
  - intros Hnone Hpost m Hm. rewrite Hout in Hm.
    rewrite (run_steps_recorded _ _ _ _ _ Hm).
    rewrite recorded_lookup_other; [done|]. by apply run_steps_asks_only.
Qed.

Lemma run_steps_all_skipped wizard_id steps sd ctx :
  Forall (λ step, answered step sd = true ∨ hidden step sd = true) steps →
  run_steps wizard_id steps sd ctx
  = {| outcome := Return sd; ctx_after := ctx; exchanges := [] |}.
Proof.
  induction 1 as [|step steps Hstep _ IH]; [done|].
  cbn [run_steps]. rewrite run_step_skip by done.
  unfold and_then. cbn. by rewrite IH.
Qed.

(** After steps that returned, a step that is neither answered nor hidden
    gets the next exchange, with its own message and schema. *)
Lemma run_steps_asks_next wizard_id pre step post sd ctx answers :
  let before := run_steps wizard_id pre sd ctx in
  outcome before = Return answers →
  answered step answers = false →
  hidden step answers = false →
  ∃ ex,
    exchanges (run_steps wizard_id (pre ++ step :: post) sd ctx)
      !! length (exchanges before) = Some ex ∧
    ex_step ex = step ∧
    ex_message ex = message step ∧
    ex_response_type ex = schema step ∧
    ex_store ex = state (ctx_after before).
Proof.
  intros before Hret Hans Hhid.
  destruct (run_steps_around wizard_id pre step post sd ctx answers Hret Hans Hhid)
    as (_ & _ & Hlog).
  fold before in Hlog. rewrite Hlog. clear Hlog.
  set (asking := elicit_loop wizard_id step answers (message step)
                   (state (ctx_after before)) (replies (ctx_after before))).
  destruct (elicit_loop_first wizard_id step answers (state (ctx_after before))
              (message step) (replies (ctx_after before))) as (ex & Hhd & Hmsg).
  fold asking in Hhd. rewrite head_lookup in Hhd.
  pose proof (elicit_loop_calls wizard_id step answers (state (ctx_after before))
                (message step) (replies (ctx_after before))) as Hcalls.
  fold asking in Hcalls. rewrite Forall_lookup in Hcalls.
  destruct (Hcalls _ _ Hhd) as (Hstep & Hschema & Hstore).
  exists ex. split; [|done].
  rewrite lookup_app_r by lia. rewrite Nat.sub_diag.
  destruct (and_then_exchanges_prefix asking (run_steps wizard_id post))
    as [more ->].
  by apply lookup_app_l_Some.
Qed.

(** C5, as stated, fails: in the wizard with two steps under the step_id
    [contact], the client declines the optional one, and the answer given
    to the required one is in the returned map under that step_id. *)
Lemma optional_decline_claim_fails :
  ¬ (∀ i ex data,
       exchanges (execute alias_wizard decline_then_contact) !! i = Some ex →
       ex_reply ex = Some (Result "decline" data) →
       is_required (ex_step ex) = false →
       ∀ m, outcome (execute alias_wizard decline_then_contact) = Return m →
            m !! step_id (ex_step ex) = None).
Proof.
  intros Hclaim.
  assert (exchanges (execute alias_wizard decline_then_contact) !! 0%nat
          = Some {| ex_step := contact_optional_step;
                    ex_message := message contact_optional_step;
                    ex_response_type := schema contact_optional_step;
                    ex_store := ∅;
                    ex_reply := Some (Result "decline" VNone) |})
    as Hasked by (vm_compute; reflexivity).
  assert (outcome (execute alias_wizard decline_then_contact)
          = Return {[ "contact" := VStr "ada@example.org" ]}) as Hout
    by (vm_compute; reflexivity).
  pose proof (Hclaim _ _ _ Hasked eq_refl eq_refl _ Hout) as Habsent.
  assert (({[ "contact" := VStr "ada@example.org" ]} : gmap string PyVal)
            !! "contact" = Some (VStr "ada@example.org")) as Hin
    by (vm_compute; reflexivity).
  change (step_id (ex_step _)) with "contact" in Habsent.
  congruence.
Qed.

(** C5, as the code has it. When the client declines a step that is not
    required, nothing is recorded and the store stays as it was, and the
    run goes on with the steps registered after that step: the first of
    them that is neither answered nor hidden gets the next exchange, with
    its own message and schema and the same store; if there is none, the
    run returns the answers as they stood.  If no later step is registered
    under the same step_id, that step_id is absent from the returned map,
    from the session mapping in the store at the end, and from the one
    every exchange of the run saw. *)
Theorem optional_decline_skips (self : WizardManager) (ctx : Context)
    (i : nat) (ex : Exchange) (data : PyVal) :
  let run := execute self ctx in
  let key := step_id (ex_step ex) in
  let settled (answers : gmap string PyVal) (p : FormStep) :=
    answered p answers = true ∨ hidden p answers = true in
  exchanges run !! i = Some ex →
  ex_reply ex = Some (Result "decline" data) →
  is_required (ex_step ex) = false →
  ∃ pre post answers,
    steps self = (pre ++ ex_step ex :: post)%list ∧
    outcome (run_steps (wizard_id self) pre (load_session ctx (wizard_id self)) ctx)
    = Return answers ∧
    answers !! key = None ∧
    (∀ skipped next rest,
       post = (skipped ++ next :: rest)%list →
       Forall (settled answers) skipped →
       answered next answers = false → hidden next answers = false →
       ∃ ex', exchanges run !! S i = Some ex' ∧
              ex_step ex' = next ∧
              ex_message ex' = message next ∧
              ex_response_type ex' = schema next ∧
              ex_store ex' = ex_store ex) ∧
    (Forall (settled answers) post →
       outcome run = Return answers ∧ length (exchanges run) = S i) ∧
    ((∀ p, p ∈ post → step_id p ≠ key) →
       (∀ m, outcome run = Return m → m !! key = None) ∧
       load_session (ctx_after run) (wizard_id self) !! key = None ∧
       (∀ ex', ex' ∈ exchanges run →
          load_session {| state := ex_store ex'; replies := [] |} (wizard_id self)
            !! key = None)).
Proof.
  intros run key settled Hi Hre Hopt.
  set (wid := wizard_id self). set (loaded := load_session ctx wid).
  assert (exchanges run = exchanges (run_steps wid (steps self) loaded ctx)) as Hrun
    by apply execute_exchanges.
  assert (asks_fresh loaded (exchanges run)) as Hfresh
    by (rewrite Hrun; apply run_steps_fresh).
  assert (loaded !! key = None) as Hloaded.
  { eapply asks_fresh_initial; [exact Hfresh|]. by eapply list_elem_of_lookup_2. }
  rewrite Hrun in Hi.
  destruct (run_steps_locate _ _ _ _ _ _ Hi)
    as (pre & step & post & sd' & j & Hsteps & Hret & Hans & Hhid & -> & Hj).
  cbn zeta in *.
  set (before := run_steps wid pre loaded ctx) in *.
  set (asking := elicit_loop wid step sd' (message step)
                   (state (ctx_after before)) (replies (ctx_after before))) in *.
  pose proof (elicit_loop_calls wid step sd' (state (ctx_after before))
                (message step) (replies (ctx_after before))) as Hcalls.
  fold asking in Hcalls.
  assert (ex_step ex = step ∧ ex_store ex = state (ctx_after before)) as [Hstep Hseen].
  { rewrite Forall_lookup in Hcalls. by destruct (Hcalls _ _ Hj) as (? & _ & ?). }
  destruct (elicit_loop_result _ _ _ _ _ _ _ _ _ _ Hj Hre) as (Hlen & Hout & Hst).
  fold asking in Hlen, Hout, Hst.
  assert (outcome asking = Return sd' ∧ state (ctx_after asking) = ex_store ex)
    as [Hreturn Hkept].
  { rewrite Hout, Hst, Hseen. cbn [elicit_loop]. cbn. by rewrite <- Hstep, Hopt. }
  clear Hout Hst.
  destruct (run_steps_around wid pre step post loaded ctx sd' Hret Hans Hhid)
    as (Hout & Hctx & Hlog).
  fold before asking in Hout, Hctx, Hlog.
  unfold and_then in Hout, Hctx, Hlog. rewrite Hreturn in Hout, Hctx, Hlog.
  cbn [outcome ctx_after exchanges] in Hout, Hctx, Hlog.
  set (after := run_steps wid post sd' (ctx_after asking)) in *.
  assert (sd' !! key = None) as Hnew.
  { unfold key. rewrite Hstep. by apply answered_false. }
  exists pre, post, sd'. rewrite Hstep.
  split; [done|]. split; [done|]. split; [exact Hnew|].
  split; [|split].
  - (* the next step that is neither answered nor hidden is asked *)
    intros skipped next rest Hpost Hskipped Hnans Hnhid.
    assert (run_steps wid skipped sd' (ctx_after asking)
            = {| outcome := Return sd'; ctx_after := ctx_after asking;
                 exchanges := [] |}) as Hskip
      by by apply run_steps_all_skipped.
    destruct (run_steps_asks_next wid skipped next rest sd' (ctx_after asking) sd')
      as (ex' & Hnext & Hfacts); [by rewrite Hskip|done|done|].
    rewrite Hskip in Hnext, Hfacts. cbn [exchanges ctx_after length] in Hnext, Hfacts.
    rewrite <- Hpost in Hnext. fold after in Hnext.
    exists ex'. split; [|by rewrite <- Hkept].
    rewrite Hrun, Hsteps, Hlog, app_assoc, lookup_app_r
      by (rewrite length_app, Hlen; lia).
    rewrite length_app, Hlen.
    replace (S (length (exchanges before) + j) - (length (exchanges before) + S j))%nat
      with 0%nat by lia.
    exact Hnext.
  - (* with no such step the run returns *)
    intros Hsettled.
    assert (after = {| outcome := Return sd'; ctx_after := ctx_after asking;
                       exchanges := [] |}) as Hskip
      by by apply run_steps_all_skipped.
    unfold run. rewrite execute_outcome, execute_exchanges. fold wid loaded.
    rewrite Hsteps, Hout, Hlog, Hskip. cbn [outcome exchanges].
    split; [done|]. rewrite app_nil_r, length_app, Hlen. lia.
  - (* the key stays absent when no later step shares it *)
    intros Hpost.
    assert (Forall (λ ex', is_Some (accepted_data ex') → step_id (ex_step ex') ≠ key)
              (exchanges run)) as Hothers.
    { rewrite Hrun, Hsteps, Hlog. repeat apply Forall_app_2.
      - apply Forall_lookup. intros n ex' Hn [d Hd] Heq.
        pose proof (asks_fresh_accepted loaded (exchanges before) n ex' d
                      (run_steps_fresh wid pre loaded ctx) Hn Hd) as Hin.
        pose proof (run_steps_recorded _ _ _ _ _ Hret) as Hrec.
        fold before in Hrec. rewrite <- Hrec, Heq, Hnew in Hin. done.
      - apply Forall_lookup. intros n ex' Hn [d Hd] _.
        assert (sd' !! step_id step = None) as Hnone by by apply answered_false.
        pose proof (elicit_loop_fresh wid step sd' (state (ctx_after before))
                      (message step) (replies (ctx_after before)) Hnone) as Hfr.
        fold asking in Hfr.
        pose proof (asks_fresh_accepted _ _ _ _ _ Hfr Hn Hd) as Hin.
        pose proof (elicit_loop_recorded _ _ _ _ _ _ _ Hreturn) as Hrec.
        fold asking in Hrec. rewrite <- Hrec in Hin.
        rewrite Forall_lookup in Hcalls. destruct (Hcalls _ _ Hn) as (Hs & _).
        rewrite Hs, Hnone in Hin. done.
      - by apply run_steps_asks_only. }
    assert (∀ n, recorded loaded (take n (exchanges run)) !! key = None) as Hprefix.
    { intros n. rewrite recorded_lookup_other; [done|]. by apply Forall_take. }
    split; [|split].
    + intros m Hm. rewrite (execute_recorded _ _ _ Hm). fold wid loaded run.
      by rewrite recorded_lookup_other.
    + destruct (outcome run) as [m| |] eqn:Hend.
      * erewrite load_session_dict; [apply lookup_empty|].
        unfold run. rewrite (execute_state_return _ _ _ Hend). apply lookup_insert_eq.
      * rewrite (load_session_persisted wid ctx _ (exchanges run)).
        -- by rewrite recorded_lookup_other.
        -- apply execute_state_partial. intros m. fold run. by rewrite Hend.
      * rewrite (load_session_persisted wid ctx _ (exchanges run)).
        -- by rewrite recorded_lookup_other.
        -- apply execute_state_partial. intros m. fold run. by rewrite Hend.
    + intros ex' [n Hn]%list_elem_of_lookup.
      rewrite (load_session_persisted wid ctx _ (take n (exchanges run)));
        [apply Hprefix|].
      cbn [state]. apply stores_follow_lookup; [|done].
      rewrite Hrun. apply run_steps_stores.
Qed.

(** *** Retry prompts *)

(** However many times validation fails, the loop asks again. *)
Lemma retries_unbounded wizard_id step sd st msg errors details (n : nat) :
  error_details errors = Some details →
  let asking :=
    elicit_loop wizard_id step sd msg st (replicate n (ValidationError errors)) in
  length (exchanges asking) = S n ∧ outcome asking = Suspended.
Proof.
  intros Hdetails. revert msg. induction n as [|n IH]; intros msg; [done|].
  cbn [replicate elicit_loop]. rewrite Hdetails.
  cbn [after_exchange outcome exchanges length].
  destruct (IH (retry_message step details)) as [-> ->]. done.
Qed.

(** After a validation failure the next prompt, when there is one, is for
    the same step and is made from the step's own message and the listing
    of that failure alone: nothing of earlier attempts is carried over. *)
Lemma retry_prompt_from_original (self : WizardManager) (ctx : Context)
    (i : nat) (ex ex' : Exchange) (errors : list ErrorDetails) :
  exchanges (execute self ctx) !! i = Some ex →
  ex_reply ex = Some (ValidationError errors) →
  exchanges (execute self ctx) !! S i = Some ex' →
  ∃ details,
    error_details errors = Some details ∧
    ex_step ex' = ex_step ex ∧
    ex_message ex' = retry_message (ex_step ex) details.
Proof.
  rewrite execute_exchanges. intros Hi Hre Hnext.
  destruct (run_steps_locate _ _ _ _ _ _ Hi)
    as (pre & step & post & sd' & j & Hsteps & Hret & Hans & Hhid & -> & Hj).
  cbn zeta in *.
  destruct (run_steps_around (wizard_id self) pre step post
              (load_session ctx (wizard_id self)) ctx sd' Hret Hans Hhid)
    as (_ & _ & Hlog).
  rewrite Hsteps, Hlog in Hnext. clear Hlog.
  set (before := run_steps (wizard_id self) pre (load_session ctx (wizard_id self)) ctx) in *.
  pose proof (elicit_loop_calls (wizard_id self) step sd' (state (ctx_after before))
                (message step) (replies (ctx_after before))) as Hcalls.
  rewrite Forall_lookup in Hcalls.
  set (asking := elicit_loop (wizard_id self) step sd' (message step)
                   (state (ctx_after before)) (replies (ctx_after before))) in *.
  destruct (Hcalls _ _ Hj) as (Hstep & _).
  rewrite lookup_app_r in Hnext by lia.
  replace (S (length (exchanges before) + j) - length (exchanges before))%nat
    with (S j) in Hnext by lia.
  destruct (decide (S j < length (exchanges asking))%nat) as [Hlt|Hge].
  - destruct (elicit_loop_retry _ _ _ _ _ _ _ _ Hj Hlt)
      as (errors0 & details & ex'' & Hre' & Hdetails & Hnext' & Hmsg).
    fold asking in Hnext'.
    rewrite Hre in Hre'. injection Hre' as <-.
    destruct (and_then_exchanges_prefix asking (run_steps (wizard_id self) post))
      as [more Hmore].
    rewrite Hmore, lookup_app_l, Hnext' in Hnext by done. injection Hnext as <-.
    exists details. destruct (Hcalls _ _ Hnext') as (Hstep' & _).
    by rewrite Hstep, Hstep'.
  - assert (length (exchanges asking) = S j) as Hlen.
    { apply lookup_lt_Some in Hj. fold asking in Hj. lia. }
    destruct (elicit_loop_validation _ _ _ _ _ _ _ _ _ Hj Hre Hlen) as [_ Hraise].
    fold asking in Hraise. unfold and_then in Hnext. rewrite Hraise in Hnext.
    cbn [exchanges] in Hnext. apply lookup_lt_Some in Hnext. lia.
Qed.

(** C8. The code at the input where it departs from the claim: the
    configuration step of the example wizard, answered once with two field
    errors.  The retry prompt is the original message followed by the
    listing, but the two entries of the listing are joined by a backslash
    and the letter n, not by a newline: they share one line. *)
Theorem retry_listing_on_one_line :
  let run := execute infra_wizard staging_invalid_config in
  let listed :=
    "- instance_type: Field required\n- volume_size: Input should be greater than or equal to 10" in
  let per_line :=
    "- instance_type: Field required" +:+ nl
      +:+ "- volume_size: Input should be greater than or equal to 10" in
  ex_message <$> exchanges run
  = [ message config_step;
      message config_step +:+ nl +:+ nl +:+ "Validation Error(s):" +:+ nl
        +:+ listed +:+ nl +:+ nl +:+ "Please correct your input." ] ∧
  error_details config_errors = Some listed ∧
  listed ≠ per_line.
Proof.
  intros run listed per_line. split; [|split].
  - vm_compute. reflexivity.
  - vm_compute. reflexivity.
  - vm_compute. discriminate.
Qed.

(** *** A hidden step whose answer was resumed *)

(** C2, as stated, fails: in the second run of the contact wizard the
    phone step is reached with resumed answers on which its condition is
    false, and its step_id is in the returned map. *)
Lemma hidden_step_claim_fails :
  ¬ (∀ pre step post c answers,
       steps contact_wizard = (pre ++ step :: post)%list →
       outcome (run_steps (wizard_id contact_wizard) pre
                  (load_session contact_second_run (wizard_id contact_wizard))
                  contact_second_run) = Return answers →
       condition step = Some c →
       c answers = false →
       (∀ ex, ex ∈ exchanges (execute contact_wizard contact_second_run) →
              ex_step ex ≠ step) ∧
       (∀ m, outcome (execute contact_wizard contact_second_run) = Return m →
             m !! step_id step = None)).
Proof.
  intros Hclaim.
  assert (steps contact_wizard = ([] ++ phone_step :: [email_step; confirm_step])%list)
    as Hsteps by (vm_compute; reflexivity).
  assert (outcome (run_steps (wizard_id contact_wizard) []
                     (load_session contact_second_run (wizard_id contact_wizard))
                     contact_second_run)
          = Return (load_session contact_second_run (wizard_id contact_wizard)))
    as Hreached by (vm_compute; reflexivity).
  assert (no_email (load_session contact_second_run (wizard_id contact_wizard)) = false)
    as Hfalse by (vm_compute; reflexivity).
  destruct (Hclaim _ _ _ _ _ Hsteps Hreached eq_refl Hfalse) as [_ Habsent].
  assert (outcome (execute contact_wizard contact_second_run)
          = Return {[ "phone" := VStr "555-0100"; "email" := VStr "ada@example.org";
                      "confirm" := VStr "yes" ]}) as Hout
    by (vm_compute; reflexivity).
  specialize (Habsent _ Hout).
  assert (({[ "phone" := VStr "555-0100"; "email" := VStr "ada@example.org";
              "confirm" := VStr "yes" ]} : gmap string PyVal) !! step_id phone_step
          = Some (VStr "555-0100")) as Hin by (vm_compute; reflexivity).
  congruence.
Qed.

(** *** Registration *)

(** C9, as stated, fails: a step with an empty step_id and an empty
    multi-select is built and registered twice, and [execute] goes on to
    ask it. *)
Lemma blank_steps_are_registered :
  step_id blank_step = "" ∧
  schema blank_step = SchemaMultiSelect [] ∧
  steps blank_wizard = [blank_step; blank_step] ∧
  ¬ NoDup (step_id <$> steps blank_wizard) ∧
  outcome (execute blank_wizard (fresh_session [])) = Suspended ∧
  ex_step <$> exchanges (execute blank_wizard (fresh_session [])) = [blank_step].
Proof.
  repeat split; try (vm_compute; reflexivity).
  intros Hnodup. apply NoDup_cons in Hnodup as [Hnotin _].
  apply Hnotin. left.
Qed.

(** C9, as the code has it. Registration checks nothing: whatever steps are
    added, with whatever step_ids and schemas, the registry is those steps
    in the order of the calls, and the wizard_id is kept. *)
Theorem registration_is_unchecked (wizard_id0 : string) (added : list FormStep) :
  steps (foldl add_step (WizardManager_init wizard_id0) added) = added ∧
  wizard_id (foldl add_step (WizardManager_init wizard_id0) added) = wizard_id0.
Proof.
  assert (∀ w, steps (foldl add_step w added) = (steps w ++ added)%list ∧
               wizard_id (foldl add_step w added) = wizard_id w) as Hgen.
  { induction added as [|step added IH]; intros w; cbn [foldl].
    - by rewrite app_nil_r.
    - destruct (IH (add_step w step)) as [-> ->]. cbn.
      by rewrite <- app_assoc. }
  apply (Hgen (WizardManager_init wizard_id0)).
Qed.

(** ** The theorems at work on the example wizards *)

Lemma required_decline_aborts_witness :
  exchanges (execute infra_wizard production_then_decline) !! 2%nat
  = Some config_declined ∧
  ex_reply config_declined = Some (Result "decline" VNone) ∧
  is_required (ex_step config_declined) = true ∧
  outcome (execute infra_wizard production_then_decline)
  = Raise (McpError (-32600)
             ("Required step '" +:+ step_id (ex_step config_declined) +:+ "' declined.")) ∧
  length (exchanges (execute infra_wizard production_then_decline)) = 3%nat.
Proof.
  assert (exchanges (execute infra_wizard production_then_decline) !! 2%nat
          = Some config_declined) as Hasked by (vm_compute; reflexivity).
  split; [exact Hasked|]. split; [reflexivity|]. split; [reflexivity|].
  exact (required_decline_aborts infra_wizard production_then_decline 2
           config_declined VNone Hasked eq_refl eq_refl).
Defined.

Lemma cancel_aborts_witness :
  exchanges (execute infra_wizard staging_then_cancel) !! 1%nat
  = Some config_cancelled ∧
  ex_reply config_cancelled = Some (Result "cancel" VNone) ∧
  outcome (execute infra_wizard staging_then_cancel)
  = Raise (McpError (-32000) "Workflow aborted by user cancellation.") ∧
  length (exchanges (execute infra_wizard staging_then_cancel)) = 2%nat ∧
  state (ctx_after (execute infra_wizard staging_then_cancel))
  = ex_store config_cancelled.
Proof.
  assert (exchanges (execute infra_wizard staging_then_cancel) !! 1%nat
          = Some config_cancelled) as Hasked by (vm_compute; reflexivity).
  split; [exact Hasked|]. split; [reflexivity|].
  destruct (cancel_aborts infra_wizard staging_then_cancel 1 config_cancelled VNone
              Hasked eq_refl) as (Hout & Hlen & Hstore & _).
  split; [exact Hout|]. split; [exact Hlen|exact Hstore].
Defined.

Lemma optional_decline_skips_witness :
  exchanges (execute signup_wizard decline_then_email)
  = [nickname_declined; email_accepted] ∧
  outcome (execute signup_wizard decline_then_email)
  = Return {[ "email" := VStr "ada@example.org" ]} ∧
  exchanges (execute signup_wizard decline_then_email) !! 0%nat
  = Some nickname_declined ∧
  ex_reply nickname_declined = Some (Result "decline" VNone) ∧
  is_required (ex_step nickname_declined) = false ∧
  ∃ pre post answers,
    steps signup_wizard = (pre ++ ex_step nickname_declined :: post)%list ∧
    outcome (run_steps (wizard_id signup_wizard) pre
               (load_session decline_then_email (wizard_id signup_wizard))
               decline_then_email) = Return answers ∧
    answers !! step_id (ex_step nickname_declined) = None.
Proof.
  assert (exchanges (execute signup_wizard decline_then_email)
          = [nickname_declined; email_accepted]) as Hlog by (vm_compute; reflexivity).
  assert (outcome (execute signup_wizard decline_then_email)
          = Return {[ "email" := VStr "ada@example.org" ]}) as Hout
    by (vm_compute; reflexivity).
  assert (exchanges (execute signup_wizard decline_then_email) !! 0%nat
          = Some nickname_declined) as Hasked by (vm_compute; reflexivity).
  split; [exact Hlog|]. split; [exact Hout|]. split; [exact Hasked|].
  split; [reflexivity|]. split; [reflexivity|].
  destruct (optional_decline_skips signup_wizard decline_then_email 0
              nickname_declined VNone Hasked eq_refl eq_refl)
    as (pre & post & answers & Hsteps & Hreached & Hnew & _).
  exists pre, post, answers. split; [exact Hsteps|]. split; [exact Hreached|exact Hnew].
Defined.


Lemma execute_resumes_witness :
  let first := execute infra_wizard production_then_decline in
  let ctx2 :=
    {| state := state (ctx_after first);
       replies := [Result "accept" (VStr "m5.large")] |} in
  let second := execute infra_wizard ctx2 in
  (∀ m, outcome first ≠ Return m) ∧
  load_session ctx2 (wizard_id infra_wizard) !! "environment"
  = Some (VStr "production") ∧
  (∀ ex2, ex2 ∈ exchanges second → step_id (ex_step ex2) ≠ "environment") ∧
  (∀ m, outcome second = Return m → m !! "environment" = Some (VStr "production")).
Proof.
  intros first ctx2 second.
  assert (∀ m, outcome first ≠ Return m) as Hpartial
    by (intros m; vm_compute; discriminate).
  assert (load_session ctx2 (wizard_id infra_wizard) !! "environment"
          = Some (VStr "production")) as Hloaded by (vm_compute; reflexivity).
  split; [exact Hpartial|]. split; [exact Hloaded|].
  destruct (execute_resumes infra_wizard production_then_decline
              [Result "accept" (VStr "m5.large")] Hpartial)
    as (_ & _ & Hkeys & _).
  exact (Hkeys "environment" (VStr "production") Hloaded).
Defined.

Lemma hidden_step_not_asked_witness :
  steps infra_wizard = ([environment_step] ++ advanced_features_step :: [config_step])%list ∧
  outcome (run_steps (wizard_id infra_wizard) [environment_step]
             (load_session staging_complete (wizard_id infra_wizard)) staging_complete)
  = Return {[ "environment" := VStr "staging" ]} ∧
  condition advanced_features_step = Some is_production ∧
  is_production {[ "environment" := VStr "staging" ]} = false ∧
  (∀ m, outcome (execute infra_wizard staging_complete) = Return m →
        m !! step_id advanced_features_step = None).
Proof.
  assert (steps infra_wizard
          = ([environment_step] ++ advanced_features_step :: [config_step])%list)
    as Hsteps by (vm_compute; reflexivity).
  assert (outcome (run_steps (wizard_id infra_wizard) [environment_step]
                     (load_session staging_complete (wizard_id infra_wizard))
                     staging_complete)
          = Return {[ "environment" := VStr "staging" ]})
    as Hreached by (vm_compute; reflexivity).
  assert (is_production {[ "environment" := VStr "staging" ]} = false)
    as Hfalse by (vm_compute; reflexivity).
  split; [exact Hsteps|]. split; [exact Hreached|]. split; [reflexivity|].
  split; [exact Hfalse|].
  destruct (hidden_step_not_asked infra_wizard staging_complete [environment_step]
              [config_step] advanced_features_step is_production
              {[ "environment" := VStr "staging" ]} Hsteps Hreached eq_refl Hfalse)
    as (_ & _ & Habsent).
  apply Habsent.
  - vm_compute. reflexivity.
  - intros p Hp. apply list_elem_of_singleton in Hp. rewrite Hp.
    vm_compute. discriminate.
Defined.

Lemma completion_clears_session_witness :
  let run := execute infra_wizard staging_complete in
  let ctx2 := {| state := state (ctx_after run); replies := [] |} in
  outcome run
  = Return {[ "environment" := VStr "staging"; "config" := VStr "t3.micro" ]} ∧
  state (ctx_after run)
  = <[wizard_id infra_wizard := VDict ∅]> (state staging_complete) ∧
  load_session ctx2 (wizard_id infra_wizard) = ∅.
Proof.
  intros run ctx2.
  assert (outcome run
          = Return {[ "environment" := VStr "staging"; "config" := VStr "t3.micro" ]})
    as Hdone by (vm_compute; reflexivity).
  split; [exact Hdone|].
  destruct (completion_clears_session infra_wizard staging_complete _ [] Hdone)
    as (Hstore & _ & Hload & _).
  split; [exact Hstore|exact Hload].
Defined.

Lemma stale_keys_returned_witness :
  state legacy_session !! wizard_id infra_wizard = Some (VDict legacy_answers) ∧
  (∀ m, outcome (execute infra_wizard legacy_session) = Return m →
        m !! "region" = legacy_answers !! "region").
Proof.
  assert (state legacy_session !! wizard_id infra_wizard = Some (VDict legacy_answers))
    as Hstored by (vm_compute; reflexivity).
  split; [exact Hstored|].
  intros m Hm.
  destruct (stale_keys_returned infra_wizard legacy_session legacy_answers Hstored)
    as (Hkeys & _).
  destruct (Hkeys m Hm) as (_ & _ & Hstale).
  apply Hstale.
  apply (bool_decide_unpack _). vm_compute. exact I.
Defined.

(** * Further properties of the wizard *)

(** ** How a run fails *)

(** The listing of field errors cannot be built exactly when one of the
    errors has an empty location. *)
Lemma error_details_None (errors : list ErrorDetails) :
  error_details errors = None ↔ ∃ err, err ∈ errors ∧ loc err = Some [].
Proof.
  unfold error_details. rewrite fmap_None, mapM_None, Exists_exists.
  split; intros (err & Hin & Herr); exists err; (split; [done|]).
  - unfold format_error in Herr.
    destruct (loc err) as [[|first rest]|]; cbn in Herr; done.
  - unfold format_error. by rewrite Herr.
Qed.

Section LoopEnds.
Context (wizard_id : string) (step : FormStep).
Context (session_data store : gmap string PyVal).

Local Abbreviation loop msg rs :=
  (elicit_loop wizard_id step session_data msg store rs).

(** A validation failure whose listing cannot be built ends the loop. *)
Lemma elicit_loop_listing_failed msg rs i ex failed :
  exchanges (loop msg rs) !! i = Some ex →
  ex_reply ex = Some (ValidationError failed) →
  error_details failed = None →
  length (exchanges (loop msg rs)) = S i ∧
  outcome (loop msg rs) = Raise IndexError ∧
  state (ctx_after (loop msg rs)) = store.
Proof.
  revert msg i ex. induction rs as [|reply rs IH]; intros msg i ex.
  - cbn. destruct i; [|done]. by intros [= <-].
  - destruct reply as [action data|errs]; cbn [elicit_loop].
    + repeat case_match; cbn [exchanges];
        (destruct i as [|i]; [|done]; by intros [= <-]).
    + destruct (error_details errs) as [details|] eqn:Herrs;
        cbn [outcome exchanges ctx_after after_exchange].
      * destruct i as [|i]; cbn [lookup list_lookup length].
        -- intros [= <-]. cbn. intros [= <-] Hnone. congruence.
        -- intros Hi Hre Hnone.
           destruct (IH _ i ex Hi Hre Hnone) as (-> & -> & ->). done.
      * destruct i as [|i]; [|done]. by intros [= <-].
Qed.

(** When a loop returns, its last exchange was an accepted answer, now in
    the map, or the decline of a step that is not required. *)
Lemma elicit_loop_returned msg rs m :
  outcome (loop msg rs) = Return m →
  ∃ ex data, last (exchanges (loop msg rs)) = Some ex ∧
    ((ex_reply ex = Some (Result "accept" data) ∧
      m = <[step_id step := data]> session_data) ∨
     (ex_reply ex = Some (Result "decline" data) ∧
      is_required step = false ∧ m = session_data)).
Proof.
  revert msg m. induction rs as [|reply rs IH]; intros msg m; [done|].
  destruct reply as [action data|errs]; cbn [elicit_loop].
  - destruct (String.eqb action "accept") eqn:Haccept.
    + apply String.eqb_eq in Haccept as ->. intros [= <-].
      eexists _, data. split; [done|]. by left.
    + destruct (String.eqb action "decline") eqn:Hdecline.
      * apply String.eqb_eq in Hdecline as ->.
        destruct (is_required step) eqn:Hreq; [done|].
        intros [= <-]. eexists _, data. split; [done|]. by right.
      * by destruct (String.eqb action "cancel").
  - destruct (error_details errs) as [details|] eqn:Herrs;
      cbn [outcome exchanges after_exchange]; [|done].
    intros Hret. destruct (IH _ _ Hret) as (ex & data & Hlast & Hwhy).
    exists ex, data. split; [|done]. rewrite last_cons. by rewrite Hlast.
Qed.

(** Every prompt of a loop is the message it started with or a retry
    message of its step. *)
Lemma elicit_loop_messages msg rs :
  Forall (λ ex, ex_message ex = msg ∨
                ∃ errors details, error_details errors = Some details ∧
                                  ex_message ex = retry_message step details)
    (exchanges (loop msg rs)).
Proof.
  revert msg. induction rs as [|reply rs IH]; intros msg.
  - cbn. repeat constructor.
  - destruct reply as [action data|errs]; cbn [elicit_loop].
    + repeat case_match; cbn [exchanges]; by repeat constructor.
    + destruct (error_details errs) as [details|] eqn:Herrs;
        cbn [exchanges after_exchange]; [|by repeat constructor].
      constructor; [by left|].
      eapply Forall_impl; [apply IH|]. intros ex [->|Hretry]; [|by right].
      right. by exists errs, details.
Qed.

(** A loop asks once, and once more for every validation failure. *)
Lemma elicit_loop_length msg rs :
  (length (exchanges (loop msg rs))
   ≤ S (validation_failures (exchanges (loop msg rs))))%nat.
Proof.
  revert msg. induction rs as [|reply rs IH]; intros msg.
  - cbn. lia.
  - destruct reply as [action data|errs]; cbn [elicit_loop].
    + repeat case_match; cbn; lia.
    + destruct (error_details errs) as [details|] eqn:Herrs;
        cbn [exchanges after_exchange]; [|cbn; lia].
      specialize (IH (retry_message step details)).
      unfold validation_failures in *. cbn. lia.
Qed.

(** What a loop returns, asks and consumes does not depend on the store. *)
Lemma elicit_loop_store_free msg rs (store' : gmap string PyVal) :
  let other := elicit_loop wizard_id step session_data msg store' rs in
  outcome (loop msg rs) = outcome other ∧
  replies (ctx_after (loop msg rs)) = replies (ctx_after other) ∧
  call_of <$> exchanges (loop msg rs) = call_of <$> exchanges other.
Proof.
  revert msg. induction rs as [|reply rs IH]; intros msg; [done|].
  destruct reply as [action data|errs]; cbn [elicit_loop].
  - by repeat case_match.
  - destruct (error_details errs) as [details|] eqn:Herrs; [|done].
    cbn [outcome ctx_after exchanges after_exchange fmap list_fmap].
    destruct (IH (retry_message step details)) as (-> & -> & Hcalls).
    cbn zeta in Hcalls. repeat split. unfold call_of at 1 3. cbn.
    f_equal. exact Hcalls.
Qed.
End LoopEnds.

(** A validation failure whose listing cannot be built ends the whole run
    with the [IndexError]. *)
Lemma run_steps_listing_failed wizard_id steps sd ctx i ex errors :
  exchanges (run_steps wizard_id steps sd ctx) !! i = Some ex →
  ex_reply ex = Some (ValidationError errors) →
  error_details errors = None →
  outcome (run_steps wizard_id steps sd ctx) = Raise IndexError ∧
  length (exchanges (run_steps wizard_id steps sd ctx)) = S i ∧
  state (ctx_after (run_steps wizard_id steps sd ctx)) = ex_store ex.
Proof.
  intros Hi Hre Hnone.
  destruct (run_steps_locate _ _ _ _ _ _ Hi)
    as (pre & step & post & sd' & j & Hsteps & Hret & Hans & Hhid & -> & Hj).
  cbn zeta in *.
  destruct (run_steps_around wizard_id pre step post sd ctx sd' Hret Hans Hhid)
    as (Hout & Hctx & Hlog).
  rewrite Hsteps, Hout, Hctx, Hlog. clear Hout Hctx Hlog.
  pose proof (elicit_loop_calls wizard_id step sd'
                (state (ctx_after (run_steps wizard_id pre sd ctx)))
                (message step) (replies (ctx_after (run_steps wizard_id pre sd ctx))))
    as Hcalls.
  rewrite Forall_lookup in Hcalls. destruct (Hcalls _ _ Hj) as (_ & _ & Hstore).
  destruct (elicit_loop_listing_failed _ _ _ _ _ _ _ _ _ Hj Hre Hnone)
    as (Hlen & Hout & Hst).
  unfold and_then. rewrite Hout. cbn [outcome ctx_after exchanges].
  rewrite length_app, Hlen. repeat split; [lia|]. by rewrite Hst, Hstore.
Qed.

(** The reply of an exchange that makes the loop raise ends the run. *)
Lemma run_steps_raises_at wizard_id steps sd ctx i ex e :
  exchanges (run_steps wizard_id steps sd ctx) !! i = Some ex →
  raises_at ex e →
  outcome (run_steps wizard_id steps sd ctx) = Raise e ∧
  length (exchanges (run_steps wizard_id steps sd ctx)) = S i ∧
  state (ctx_after (run_steps wizard_id steps sd ctx)) = ex_store ex.
Proof.
  intros Hi Hwhy.
  destruct Hwhy as [ex data Hre Hreq|ex data Hre|ex action data Hre Ha Hd Hc
                   |ex errors Hre Hnone].
  - eapply run_steps_raise; [exact Hi|exact Hre|].
    intros sd' msg st. cbn [elicit_loop]. cbn. by rewrite Hreq.
  - eapply run_steps_raise; [exact Hi|exact Hre|done].
  - eapply run_steps_raise; [exact Hi|exact Hre|].
    intros sd' msg st. cbn [elicit_loop].
    apply String.eqb_neq in Ha, Hd, Hc. by rewrite Ha, Hd, Hc.
  - by eapply run_steps_listing_failed.
Qed.

(** X1. A reply whose action is none of ["accept"], ["decline"] and
    ["cancel"] makes [execute] raise [McpError(-32603, ...)]; the exchange
    is the last one of the run and the store stays as that exchange saw
    it. *)
Theorem unknown_action_aborts (self : WizardManager) (ctx : Context)
    (i : nat) (ex : Exchange) (action : string) (data : PyVal) :
  exchanges (execute self ctx) !! i = Some ex →
  ex_reply ex = Some (Result action data) →
  action ≠ "accept" → action ≠ "decline" → action ≠ "cancel" →
  outcome (execute self ctx)
  = Raise (McpError (-32603) "Internal error: Received unknown elicitation action.") ∧
  length (exchanges (execute self ctx)) = S i ∧
  state (ctx_after (execute self ctx)) = ex_store ex.
Proof.
  intros Hi Hre Ha Hd Hc. rewrite execute_exchanges in Hi.
  destruct (run_steps_raises_at _ _ _ _ _ _ _ Hi
              (unknown_action ex action data Hre Ha Hd Hc)) as (Hout & Hlen & Hst).
  rewrite execute_exchanges, execute_outcome. repeat split; [done|done|].
  rewrite <- Hst. unfold execute, and_then. by rewrite Hout.
Qed.

(** X2. When a validation failure carries an error whose location is empty,
    the listing cannot be built: [execute] raises [IndexError] instead of
    asking again; the exchange is the last one of the run and the store
    stays as that exchange saw it. *)
Theorem empty_location_aborts (self : WizardManager) (ctx : Context)
    (i : nat) (ex : Exchange) (errors : list ErrorDetails) (err : ErrorDetails) :
  exchanges (execute self ctx) !! i = Some ex →
  ex_reply ex = Some (ValidationError errors) →
  err ∈ errors → loc err = Some [] →
  outcome (execute self ctx) = Raise IndexError ∧
  length (exchanges (execute self ctx)) = S i ∧
  state (ctx_after (execute self ctx)) = ex_store ex.
Proof.
  intros Hi Hre Hin Hloc. rewrite execute_exchanges in Hi.
  assert (error_details errors = None) as Hnone
    by (apply error_details_None; by exists err).
  destruct (run_steps_listing_failed _ _ _ _ _ _ _ Hi Hre Hnone)
    as (Hout & Hlen & Hst).
  rewrite execute_exchanges, execute_outcome. repeat split; [done|done|].
  rewrite <- Hst. unfold execute, and_then. by rewrite Hout.
Qed.

(** ** What a returned map holds *)

Lemma run_steps_returns_prefix wizard_id pre rest sd ctx m :
  outcome (run_steps wizard_id (pre ++ rest) sd ctx) = Return m →
  ∃ answers,
    let before := run_steps wizard_id pre sd ctx in
    outcome before = Return answers ∧
    outcome (run_steps wizard_id rest answers (ctx_after before)) = Return m ∧
    exchanges (run_steps wizard_id (pre ++ rest) sd ctx)
    = (exchanges before
         ++ exchanges (run_steps wizard_id rest answers (ctx_after before)))%list.
Proof.
  rewrite run_steps_app. unfold and_then.
  destruct (outcome (run_steps wizard_id pre sd ctx)) as [answers| |];
    cbn [outcome exchanges]; [|done..].
  intros Hm. by exists answers.
Qed.

Lemma run_steps_grows wizard_id steps sd ctx m :
  outcome (run_steps wizard_id steps sd ctx) = Return m → sd ⊆ m.
Proof.
  intros Hm. rewrite (run_steps_recorded _ _ _ _ _ Hm).
  apply asks_fresh_subseteq, run_steps_fresh.
Qed.

(** When the loop over the steps returns, each step was reached, and was
    answered (before or now), hidden, or declined without being required. *)
Lemma run_steps_resolved wizard_id pre step post sd ctx m :
  outcome (run_steps wizard_id (pre ++ step :: post) sd ctx) = Return m →
  ∃ answers,
    outcome (run_steps wizard_id pre sd ctx) = Return answers ∧
    sd ⊆ answers ∧ answers ⊆ m ∧
    (is_Some (m !! step_id step) ∨
     hidden step answers = true ∨
     (is_required step = false ∧
      ∃ ex data,
        ex ∈ exchanges (run_steps wizard_id (pre ++ step :: post) sd ctx) ∧
        ex_step ex = step ∧ ex_reply ex = Some (Result "decline" data))).
Proof.
  intros Hm.
  destruct (run_steps_returns_prefix _ _ _ _ _ _ Hm) as (answers & Hpre & Hrest & Hlog).
  cbn zeta in *. exists answers. split; [done|].
  split; [by eapply run_steps_grows|].
  split; [by eapply run_steps_grows|].
  set (ctx1 := ctx_after (run_steps wizard_id pre sd ctx)) in *.
  cbn [run_steps] in Hrest, Hlog. unfold and_then in Hrest, Hlog.
  destruct (outcome (run_step wizard_id step answers ctx1)) as [m1| |] eqn:Hstep;
    cbn [outcome exchanges] in Hrest, Hlog; [|done..].
  pose proof (run_steps_grows _ _ _ _ _ Hrest) as Hgrow.
  unfold run_step in Hstep.
  destruct (answered step answers) eqn:Hans.
  { left. apply bool_decide_eq_true in Hans.
    injection Hstep as <-. by eapply lookup_weaken_is_Some. }
  destruct (hidden step answers) eqn:Hhid; [by right; left|].
  destruct (elicit_loop_returned _ _ _ _ _ _ _ Hstep) as (ex & data & Hlast & Hwhy).
  destruct Hwhy as [[Hre ->]|(Hre & Hopt & ->)].
  - left. eapply lookup_weaken_is_Some; [|exact Hgrow].
    rewrite lookup_insert_eq. by eexists.
  - right; right. split; [done|]. exists ex, data.
    assert (ex ∈ exchanges (elicit_loop wizard_id step answers (message step)
                              (state ctx1) (replies ctx1))) as Hin.
    { apply last_Some in Hlast as [l' ->]. apply elem_of_app. right. left. }
    split; [|split; [|done]].
    + rewrite Hlog. unfold run_step. rewrite Hans, Hhid.
      apply elem_of_app. right. apply elem_of_app. by left.
    + pose proof (elicit_loop_calls wizard_id step answers (state ctx1)
                    (message step) (replies ctx1)) as Hcalls.
      rewrite Forall_forall in Hcalls. by destruct (Hcalls _ Hin).
Qed.

(** X4. When [execute] returns, every registered step was reached, and for
    each of them one of three things holds: the returned map has an answer
    under its step_id, or its condition was false on the answers collected
    when it was reached, or it is not required and the client declined it.
    The answers collected at that point are part of the returned map. *)
Theorem every_step_resolved (self : WizardManager) (ctx : Context)
    (m : gmap string PyVal) (pre post : list FormStep) (step : FormStep) :
  outcome (execute self ctx) = Return m →
  steps self = (pre ++ step :: post)%list →
  ∃ answers,
    outcome (run_steps (wizard_id self) pre (load_session ctx (wizard_id self)) ctx)
    = Return answers ∧
    answers ⊆ m ∧
    (is_Some (m !! step_id step) ∨
     hidden step answers = true ∨
     (is_required step = false ∧
      ∃ ex data, ex ∈ exchanges (execute self ctx) ∧ ex_step ex = step ∧
                 ex_reply ex = Some (Result "decline" data))).
Proof.
  rewrite execute_outcome, execute_exchanges. intros Hm Hsteps.
  rewrite Hsteps in *.
  destruct (run_steps_resolved _ _ _ _ _ _ _ Hm) as (answers & Hpre & _ & Hsub & Hwhy).
  by exists answers.
Qed.

(** ** What a run does to the store *)

Lemma persisted_lookup_ne wizard_id (st sd : gmap string PyVal) log (k : string) :
  k ≠ wizard_id → persisted wizard_id st sd log !! k = st !! k.
Proof.
  intros Hk. unfold persisted. destruct (any_accepted log); [|done].
  by apply lookup_insert_ne.
Qed.

(** X5. [execute] writes no entry of the store but the one of its own
    wizard_id: under any other key the store is the same after the run, and
    at every exchange of the run, as before it. *)
Theorem execute_writes_own_key (self : WizardManager) (ctx : Context) (k : string) :
  k ≠ wizard_id self →
  state (ctx_after (execute self ctx)) !! k = state ctx !! k ∧
  (∀ ex, ex ∈ exchanges (execute self ctx) → ex_store ex !! k = state ctx !! k).
Proof.
  intros Hk. split.
  - destruct (outcome (execute self ctx)) as [m| |] eqn:Hout.
    + rewrite (execute_state_return _ _ _ Hout). by apply lookup_insert_ne.
    + rewrite execute_state_partial by (intros m; by rewrite Hout).
      by apply persisted_lookup_ne.
    + rewrite execute_state_partial by (intros m; by rewrite Hout).
      by apply persisted_lookup_ne.
  - intros ex [i Hi]%list_elem_of_lookup.
    rewrite (stores_follow_lookup (wizard_id self) (state ctx)
               (load_session ctx (wizard_id self)) (exchanges (execute self ctx)) i ex);
      [by apply persisted_lookup_ne| |done].
    rewrite execute_exchanges. apply run_steps_stores.
Qed.

(** X6. Only an accepted answer changes the store: after an exchange that
    ended otherwise (a validation failure, the decline of an optional
    step), the next exchange sees the store that this one saw. *)
Theorem store_changes_at_accept (self : WizardManager) (ctx : Context)
    (i : nat) (ex ex' : Exchange) :
  exchanges (execute self ctx) !! i = Some ex →
  exchanges (execute self ctx) !! S i = Some ex' →
  (∀ data, ex_reply ex ≠ Some (Result "accept" data)) →
  ex_store ex' = ex_store ex.
Proof.
  intros Hi Hnext Hnot.
  assert (stores_follow (wizard_id self) (state ctx) (load_session ctx (wizard_id self))
            (exchanges (execute self ctx))) as Hstores
    by (rewrite execute_exchanges; apply run_steps_stores).
  rewrite (stores_follow_lookup _ _ _ _ _ _ Hstores Hnext).
  rewrite (stores_follow_lookup _ _ _ _ _ _ Hstores Hi).
  rewrite (take_S_r _ _ _ Hi), persisted_app.
  assert (accepted_data ex = None) as Hnone.
  { unfold accepted_data. destruct (ex_reply ex) as [[action data|errors]|]; [|done..].
    destruct (String.eqb action "accept") eqn:Ha; [|done].
    apply String.eqb_eq in Ha as ->. by destruct (Hnot data). }
  unfold persisted at 1. cbn [any_accepted existsb]. by rewrite Hnone.
Qed.

(** ** What a run reads from the store *)

Lemma run_steps_store_free wizard_id steps sd ctx ctx' :
  replies ctx = replies ctx' →
  outcome (run_steps wizard_id steps sd ctx)
  = outcome (run_steps wizard_id steps sd ctx') ∧
  replies (ctx_after (run_steps wizard_id steps sd ctx))
  = replies (ctx_after (run_steps wizard_id steps sd ctx')) ∧
  call_of <$> exchanges (run_steps wizard_id steps sd ctx)
  = call_of <$> exchanges (run_steps wizard_id steps sd ctx').
Proof.
  revert sd ctx ctx'. induction steps as [|step steps IH]; intros sd ctx ctx' Hre; [done|].
  assert (outcome (run_step wizard_id step sd ctx)
          = outcome (run_step wizard_id step sd ctx') ∧
          replies (ctx_after (run_step wizard_id step sd ctx))
          = replies (ctx_after (run_step wizard_id step sd ctx')) ∧
          call_of <$> exchanges (run_step wizard_id step sd ctx)
          = call_of <$> exchanges (run_step wizard_id step sd ctx'))
    as (Hout & Hrest & Hcalls).
  { unfold run_step. destruct (answered step sd); [done|].
    destruct (hidden step sd); [done|]. rewrite Hre.
    apply elicit_loop_store_free. }
  cbn [run_steps]. unfold and_then. rewrite <- Hout.
  destruct (outcome (run_step wizard_id step sd ctx)) as [m1| |];
    cbn [outcome ctx_after exchanges]; [|done..].
  destruct (IH m1 _ _ Hrest) as (-> & -> & Hmore).
  by rewrite !fmap_app, Hcalls, Hmore.
Qed.

(** X7. The store matters to [execute] only through the session mapping it
    loads: two sessions that load the same mapping and get the same
    replies end the same way, with the same prompts, schemas and replies
    in the same order. *)
Theorem execute_reads_loaded_only (self : WizardManager) (ctx ctx' : Context) :
  load_session ctx (wizard_id self) = load_session ctx' (wizard_id self) →
  replies ctx = replies ctx' →
  outcome (execute self ctx) = outcome (execute self ctx') ∧
  call_of <$> exchanges (execute self ctx) = call_of <$> exchanges (execute self ctx') ∧
  replies (ctx_after (execute self ctx)) = replies (ctx_after (execute self ctx')).
Proof.
  intros Hload Hre.
  destruct (run_steps_store_free (wizard_id self) (steps self)
              (load_session ctx (wizard_id self)) ctx ctx' Hre) as (Hout & Hrest & Hcalls).
  rewrite !execute_outcome, !execute_exchanges, <- Hload.
  split; [done|]. split; [done|].
  unfold execute, and_then. rewrite <- Hload, <- Hout.
  by destruct (outcome (run_steps _ _ _ ctx)).
Qed.

(** X8. An entry that is not a dict (nothing stored, [None], a string, a
    number, a list) is read as the empty mapping: [execute] then ends and
    asks exactly as it does in a session whose store is empty. *)
Theorem non_dict_entry_is_ignored (self : WizardManager) (ctx : Context) :
  (∀ d, state ctx !! wizard_id self ≠ Some (VDict d)) →
  load_session ctx (wizard_id self) = ∅ ∧
  outcome (execute self ctx) = outcome (execute self (fresh_session (replies ctx))) ∧
  call_of <$> exchanges (execute self ctx)
  = call_of <$> exchanges (execute self (fresh_session (replies ctx))).
Proof.
  intros Hnot.
  assert (load_session ctx (wizard_id self) = ∅) as Hload.
  { unfold load_session, get_state, py_or.
    destruct (state ctx !! wizard_id self) as [v|] eqn:Hv; [|done].
    destruct v as [|b|n|s|l|d]; [..|by destruct (Hnot d)];
      unfold truthy; repeat case_match; by simplify_eq/=. }
  split; [done|].
  destruct (run_steps_store_free (wizard_id self) (steps self) ∅ ctx
              (fresh_session (replies ctx)) eq_refl) as (Hout & _ & Hcalls).
  by rewrite !execute_outcome, !execute_exchanges, Hload.
Qed.

(** ** What is asked, and how often *)

Lemma asks_fresh_after_accept (sd : gmap string PyVal) log i j ex ex' data :
  asks_fresh sd log →
  log !! i = Some ex → accepted_data ex = Some data →
  (i < j)%nat → log !! j = Some ex' →
  step_id (ex_step ex') ≠ step_id (ex_step ex).
Proof.
  revert sd i j. induction log as [|ex0 log IH]; intros sd i j Hfresh Hi Hacc Hlt Hj; [done|].
  destruct Hfresh as [_ Hrest]. destruct j as [|j]; [lia|]. destruct i as [|i].
  - injection Hi as ->. cbn in Hj.
    pose proof (asks_fresh_initial _ _ _ Hrest (list_elem_of_lookup_2 _ _ _ Hj)) as Hnone.
    unfold record in Hnone. rewrite Hacc in Hnone.
    apply lookup_insert_None in Hnone. intros Heq. by destruct Hnone as [_ []].
  - apply (IH _ i j Hrest Hi Hacc); [lia|done].
Qed.

(** X9. Once an answer is accepted under a step_id, nothing is asked under
    that step_id for the rest of the run; so of several steps registered
    with one step_id, at most one ever gets an answer. *)
Theorem answered_key_not_asked_again (self : WizardManager) (ctx : Context)
    (i j : nat) (ex ex' : Exchange) (data : PyVal) :
  exchanges (execute self ctx) !! i = Some ex →
  ex_reply ex = Some (Result "accept" data) →
  (i < j)%nat →
  exchanges (execute self ctx) !! j = Some ex' →
  step_id (ex_step ex') ≠ step_id (ex_step ex).
Proof.
  intros Hi Hre Hlt Hj.
  apply (asks_fresh_after_accept (load_session ctx (wizard_id self))
           (exchanges (execute self ctx)) i j ex ex' data); try done.
  - rewrite execute_exchanges. apply run_steps_fresh.
  - unfold accepted_data. by rewrite Hre.
Qed.

(** X10. A step that is reached without an answer under its step_id and
    whose condition, if it has one, holds on the answers collected so far is
    asked: the next exchange of the run is for that step, with the step's
    own message and schema, and sees the store as the steps before it left
    it. *)
Theorem visible_step_is_asked (self : WizardManager) (ctx : Context)
    (pre post : list FormStep) (step : FormStep) (answers : gmap string PyVal) :
  let before :=
    run_steps (wizard_id self) pre (load_session ctx (wizard_id self)) ctx in
  steps self = (pre ++ step :: post)%list →
  outcome before = Return answers →
  answers !! step_id step = None →
  hidden step answers = false →
  ∃ ex,
    exchanges (execute self ctx) !! length (exchanges before) = Some ex ∧
    ex_step ex = step ∧
    ex_message ex = message step ∧
    ex_response_type ex = schema step ∧
    ex_store ex = state (ctx_after before).
Proof.
  intros before Hsteps Hret Hnone Hhid.
  assert (answered step answers = false) as Hans.
  { unfold answered. apply bool_decide_eq_false. rewrite Hnone. by intros [? ?]. }
  destruct (run_steps_around (wizard_id self) pre step post
              (load_session ctx (wizard_id self)) ctx answers Hret Hans Hhid)
    as (_ & _ & Hlog).
  fold before in Hlog. rewrite execute_exchanges, Hsteps, Hlog. clear Hlog.
  set (asking := elicit_loop (wizard_id self) step answers (message step)
                   (state (ctx_after before)) (replies (ctx_after before))).
  destruct (elicit_loop_first (wizard_id self) step answers (state (ctx_after before))
              (message step) (replies (ctx_after before))) as (ex & Hhd & Hmsg).
  fold asking in Hhd. rewrite head_lookup in Hhd.
  pose proof (elicit_loop_calls (wizard_id self) step answers (state (ctx_after before))
                (message step) (replies (ctx_after before))) as Hcalls.
  fold asking in Hcalls. rewrite Forall_lookup in Hcalls.
  destruct (Hcalls _ _ Hhd) as (Hstep & Hschema & Hstore).
  exists ex. split; [|done].
  rewrite lookup_app_r by lia. rewrite Nat.sub_diag.
  destruct (and_then_exchanges_prefix asking (run_steps (wizard_id self) post))
    as [more ->].
  by apply lookup_app_l_Some.
Qed.

(** X11. Every prompt of a run is for a registered step, carries that
    step's schema, and its text is either the step's message or the step's
    message followed by the listing of one validation failure. *)
Theorem every_prompt_is_of_its_step (self : WizardManager) (ctx : Context)
    (ex : Exchange) :
  ex ∈ exchanges (execute self ctx) →
  ex_step ex ∈ steps self ∧
  ex_response_type ex = schema (ex_step ex) ∧
  (ex_message ex = message (ex_step ex) ∨
   ∃ errors details,
     error_details errors = Some details ∧
     ex_message ex = retry_message (ex_step ex) details).
Proof.
  rewrite execute_exchanges. intros [i Hi]%list_elem_of_lookup.
  destruct (run_steps_locate _ _ _ _ _ _ Hi)
    as (pre & step & post & sd' & j & Hsteps & Hret & Hans & Hhid & -> & Hj).
  cbn zeta in *.
  pose proof (elicit_loop_calls (wizard_id self) step sd'
                (state (ctx_after (run_steps (wizard_id self) pre
                                     (load_session ctx (wizard_id self)) ctx)))
                (message step)
                (replies (ctx_after (run_steps (wizard_id self) pre
                                       (load_session ctx (wizard_id self)) ctx))))
    as Hcalls.
  pose proof (elicit_loop_messages (wizard_id self) step sd'
                (state (ctx_after (run_steps (wizard_id self) pre
                                     (load_session ctx (wizard_id self)) ctx)))
                (message step)
                (replies (ctx_after (run_steps (wizard_id self) pre
                                       (load_session ctx (wizard_id self)) ctx))))
    as Hmsgs.
  rewrite Forall_lookup in Hcalls, Hmsgs.
  destruct (Hcalls _ _ Hj) as (-> & Hschema & _).
  split; [|split; [done|by apply (Hmsgs _ _ Hj)]].
  rewrite Hsteps. apply elem_of_app. right. left.
Qed.

Lemma validation_failures_app log1 log2 :
  validation_failures (log1 ++ log2)
  = (validation_failures log1 + validation_failures log2)%nat.
Proof. unfold validation_failures. by rewrite omap_app, length_app. Qed.

Lemma run_steps_length wizard_id steps sd ctx :
  (length (exchanges (run_steps wizard_id steps sd ctx))
   ≤ length steps + validation_failures (exchanges (run_steps wizard_id steps sd ctx)))%nat.
Proof.
  revert sd ctx. induction steps as [|step steps IH]; intros sd ctx; [cbn; lia|].
  assert (length (exchanges (run_step wizard_id step sd ctx))
          ≤ S (validation_failures (exchanges (run_step wizard_id step sd ctx))))%nat
    as Hhere.
  { unfold run_step. destruct (answered step sd); [cbn; lia|].
    destruct (hidden step sd); [cbn; lia|]. apply elicit_loop_length. }
  cbn [run_steps]. and_then_cases; cbn [length]; [|lia..].
  rewrite length_app, validation_failures_app.
  specialize (IH m1 (ctx_after (run_step wizard_id step sd ctx))). lia.
Qed.

(** X12. The number of elicit calls of a run is at most the number of
    registered steps (a step registered twice counts twice) plus the
    number of replies that were validation failures. *)
Theorem calls_are_bounded (self : WizardManager) (ctx : Context) :
  (length (exchanges (execute self ctx))
   ≤ length (steps self) + validation_failures (exchanges (execute self ctx)))%nat.
Proof. rewrite execute_exchanges. apply run_steps_length. Qed.

(** X13. When every registered step is already answered in the loaded
    session mapping, or hidden on it, [execute] asks nothing, returns the
    loaded mapping as it is and resets the entry to the empty mapping. *)
Theorem settled_session_completes (self : WizardManager) (ctx : Context) :
  let loaded := load_session ctx (wizard_id self) in
  (∀ step, step ∈ steps self →
           answered step loaded = true ∨ hidden step loaded = true) →
  exchanges (execute self ctx) = [] ∧
  outcome (execute self ctx) = Return loaded ∧
  state (ctx_after (execute self ctx)) = <[wizard_id self := VDict ∅]> (state ctx).
Proof.
  intros loaded Hall. unfold execute. fold loaded.
  rewrite run_steps_all_skipped by (by apply Forall_forall).
  by unfold and_then.
Qed.

(** ** The tools *)

Lemma is_production_spec (data : gmap string PyVal) :
  is_production data = true ↔ data !! "environment" = Some (VStr "production").
Proof.
  unfold is_production. split.
  - destruct (data !! "environment") as [[| | |s| |]|]; try done.
    by intros ->%String.eqb_eq.
  - by intros ->.
Qed.

(** X14. In a session that loads no answers, when [provision_infrastructure]
    returns, its text is the fixed prefix followed by the collected data,
    and the collected data has an answer for [environment] and for
    [config], has one for [advanced_features] exactly when the environment
    is production, and has no other key. *)
Theorem provision_infrastructure_collects
    (str_dict : gmap string PyVal → string) (ctx : Context) (text : string) :
  load_session ctx (wizard_id infra_wizard) = ∅ →
  outcome (provision_infrastructure str_dict ctx) = Return text →
  ∃ m,
    outcome (execute infra_wizard ctx) = Return m ∧
    text = "Infrastructure successfully provisioned with config: " +:+ str_dict m ∧
    is_Some (m !! "environment") ∧
    is_Some (m !! "config") ∧
    (is_Some (m !! "advanced_features")
     ↔ m !! "environment" = Some (VStr "production")) ∧
    (∀ k, is_Some (m !! k) → k ∈ ["environment"; "advanced_features"; "config"]).
Proof.
  intros Hload. unfold provision_infrastructure, and_then.
  destruct (outcome (execute infra_wizard ctx)) as [m| |] eqn:Hm;
    cbn [outcome]; [|done..].
  intros [= <-]. exists m. split; [done|]. split; [done|].
  rewrite execute_outcome, Hload in Hm.
  set (wid := wizard_id infra_wizard) in *.
  change (steps infra_wizard)
    with [environment_step; advanced_features_step; config_step] in Hm.
  (* environment *)
  destruct (run_steps_resolved wid [] environment_step
              [advanced_features_step; config_step] ∅ ctx m Hm)
    as (a0 & _ & _ & _ & Henv).
  (* advanced_features *)
  destruct (run_steps_resolved wid [environment_step] advanced_features_step
              [config_step] ∅ ctx m Hm) as (a1 & Hpre1 & _ & Hsub1 & Hadv).
  (* config *)
  destruct (run_steps_resolved wid [environment_step; advanced_features_step]
              config_step [] ∅ ctx m Hm) as (a2 & _ & _ & _ & Hcfg).
  assert (∀ k, k ∉ ["environment"; "advanced_features"; "config"] → m !! k = None)
    as Hkeys.
  { intros k Hk. rewrite (run_steps_recorded _ _ _ _ _ Hm).
    rewrite recorded_lookup_other; [done|]. apply run_steps_asks_only.
    intros p Hp Heq. apply Hk. rewrite <- Heq.
    apply (list_elem_of_fmap_2 step_id) in Hp. exact Hp. }
  split; [|split; [|split]].
  - destruct Henv as [?|[Hh|[Ho _]]]; done.
  - destruct Hcfg as [?|[Hh|[Ho _]]]; done.
  - (* the answers when advanced_features is reached *)
    destruct (run_steps_returns_prefix wid [environment_step]
                [advanced_features_step; config_step] ∅ ctx m Hm)
      as (a & Ha & Hrest & _).
    cbn zeta in *. rewrite Hpre1 in Ha. injection Ha as <-.
    set (ctx1 := ctx_after (run_steps wid [environment_step] ∅ ctx)) in *.
    assert (a1 !! "advanced_features" = None) as Hnew.
    { rewrite (run_steps_recorded _ _ _ _ _ Hpre1).
      rewrite recorded_lookup_other; [done|]. apply run_steps_asks_only.
      intros p ->%list_elem_of_singleton. done. }
    assert (m !! "environment" = a1 !! "environment") as Hsame.
    { rewrite (run_steps_recorded _ _ _ _ _ Hrest).
      apply recorded_lookup_other, run_steps_asks_only.
      intros p Hp. apply elem_of_cons in Hp as [->|Hp]; [done|].
      apply list_elem_of_singleton in Hp as ->. done. }
    rewrite Hsame, <- is_production_spec.
    destruct (is_production a1) eqn:Hprod.
    + split; [done|]. intros _.
      destruct Hadv as [?|[Hh|[Ho _]]]; [done| |done].
      unfold hidden in Hh. cbn in Hh. by rewrite Hprod in Hh.
    + split; [|done]. intros Hsome. exfalso.
      change (run_steps wid [advanced_features_step; config_step] a1 ctx1)
        with (and_then (run_step wid advanced_features_step a1 ctx1)
                (run_steps wid [config_step])) in Hrest.
      rewrite (run_step_skip wid advanced_features_step a1 ctx1) in Hrest
        by (right; unfold hidden; cbn; by rewrite Hprod).
      change (outcome (run_steps wid [config_step] a1 ctx1) = Return m) in Hrest.
      rewrite (run_steps_recorded _ _ _ _ _ Hrest) in Hsome.
      rewrite recorded_lookup_other, Hnew in Hsome; [by destruct Hsome|].
      apply run_steps_asks_only. intros p ->%list_elem_of_singleton. done.
  - intros k Hk.
    destruct (decide (k ∈ ["environment"; "advanced_features"; "config"]))
      as [Hin|Hout]; [done|].
    rewrite (Hkeys k Hout) in Hk. by destruct Hk.
Qed.

Lemma is_admin_spec (data : gmap string PyVal) :
  is_admin data = true ↔ data !! "role" = Some (VStr "admin").
Proof.
  unfold is_admin. split.
  - destruct (data !! "role") as [[| | |s| |]|]; try done.
    by intros ->%String.eqb_eq.
  - by intros ->.
Qed.

(** X15. In a session that loads no answers, when the wizard of
    [deploy_user_profile] completes, the tool returns the success text
    followed by the collected data, and the collected data has an answer
    for [username], [role] and [details], has one for [permissions]
    exactly when the role is admin, and has no other key. *)
Theorem deploy_user_profile_collects
    (str_dict : gmap string PyVal → string) (index_error_text : string)
    (ctx : Context) (m : gmap string PyVal) :
  load_session ctx (wizard_id profile_wizard) = ∅ →
  outcome (execute profile_wizard ctx) = Return m →
  outcome (deploy_user_profile str_dict index_error_text ctx)
  = Return ("Wizard completed successfully. Data gathered:" +:+ nl +:+ str_dict m) ∧
  is_Some (m !! "username") ∧
  is_Some (m !! "role") ∧
  is_Some (m !! "details") ∧
  (is_Some (m !! "permissions") ↔ m !! "role" = Some (VStr "admin")) ∧
  (∀ k, is_Some (m !! k) → k ∈ ["username"; "role"; "permissions"; "details"]).
Proof.
  intros Hload Hdone.
  split; [unfold deploy_user_profile; cbn [outcome]; by rewrite Hdone|].
  pose proof Hdone as Hm. rewrite execute_outcome, Hload in Hm.
  set (wid := wizard_id profile_wizard) in *.
  change (steps profile_wizard)
    with [username_step; role_step; permissions_step; details_step] in Hm.
  destruct (run_steps_resolved wid [] username_step
              [role_step; permissions_step; details_step] ∅ ctx m Hm)
    as (a0 & _ & _ & _ & Huser).
  destruct (run_steps_resolved wid [username_step] role_step
              [permissions_step; details_step] ∅ ctx m Hm)
    as (a1 & _ & _ & _ & Hrole).
  destruct (run_steps_resolved wid [username_step; role_step] permissions_step
              [details_step] ∅ ctx m Hm) as (a2 & Hpre2 & _ & _ & Hperm).
  destruct (run_steps_resolved wid [username_step; role_step; permissions_step]
              details_step [] ∅ ctx m Hm) as (a3 & _ & _ & _ & Hdet).
  split; [|split; [|split; [|split]]].
  - destruct Huser as [?|[Hh|[Ho _]]]; done.
  - destruct Hrole as [?|[Hh|[Ho _]]]; done.
  - destruct Hdet as [?|[Hh|[Ho _]]]; done.
  - destruct (run_steps_returns_prefix wid [username_step; role_step]
                [permissions_step; details_step] ∅ ctx m Hm)
      as (a & Ha & Hrest & _).
    cbn zeta in *. rewrite Hpre2 in Ha. injection Ha as <-.
    set (ctx2 := ctx_after (run_steps wid [username_step; role_step] ∅ ctx)) in *.
    assert (a2 !! "permissions" = None) as Hnew.
    { rewrite (run_steps_recorded _ _ _ _ _ Hpre2).
      rewrite recorded_lookup_other; [done|]. apply run_steps_asks_only.
      intros p Hp. apply elem_of_cons in Hp as [->|Hp]; [done|].
      apply list_elem_of_singleton in Hp as ->. done. }
    assert (m !! "role" = a2 !! "role") as Hsame.
    { rewrite (run_steps_recorded _ _ _ _ _ Hrest).
      apply recorded_lookup_other, run_steps_asks_only.
      intros p Hp. apply elem_of_cons in Hp as [->|Hp]; [done|].
      apply list_elem_of_singleton in Hp as ->. done. }
    rewrite Hsame, <- is_admin_spec.
    destruct (is_admin a2) eqn:Hadmin.
    + split; [done|]. intros _.
      destruct Hperm as [?|[Hh|[Ho _]]]; [done| |done].
      unfold hidden in Hh. cbn in Hh. by rewrite Hadmin in Hh.
    + split; [|done]. intros Hsome. exfalso.
      change (run_steps wid [permissions_step; details_step] a2 ctx2)
        with (and_then (run_step wid permissions_step a2 ctx2)
                (run_steps wid [details_step])) in Hrest.
      rewrite (run_step_skip wid permissions_step a2 ctx2) in Hrest
        by (right; unfold hidden; cbn; by rewrite Hadmin).
      change (outcome (run_steps wid [details_step] a2 ctx2) = Return m) in Hrest.
      rewrite (run_steps_recorded _ _ _ _ _ Hrest) in Hsome.
      rewrite recorded_lookup_other, Hnew in Hsome; [by destruct Hsome|].
      apply run_steps_asks_only. intros p ->%list_elem_of_singleton. done.
  - intros k Hk.
    destruct (decide (k ∈ ["username"; "role"; "permissions"; "details"]))
      as [Hin|Hout]; [done|].
    rewrite (run_steps_recorded _ _ _ _ _ Hm) in Hk.
    rewrite recorded_lookup_other in Hk; [by destruct Hk|].
    apply run_steps_asks_only. intros p Hp Heq. apply Hout. rewrite <- Heq.
    apply (list_elem_of_fmap_2 step_id) in Hp. exact Hp.
Qed.

(** ** The further properties at work on the example wizards *)

Lemma unknown_action_aborts_witness :
  exchanges (execute infra_wizard staging_then_timeout) !! 1%nat
  = Some config_timed_out ∧
  outcome (execute infra_wizard staging_then_timeout)
  = Raise (McpError (-32603) "Internal error: Received unknown elicitation action.") ∧
  length (exchanges (execute infra_wizard staging_then_timeout)) = 2%nat ∧
  state (ctx_after (execute infra_wizard staging_then_timeout))
  = ex_store config_timed_out.
Proof.
  assert (exchanges (execute infra_wizard staging_then_timeout) !! 1%nat
          = Some config_timed_out) as Hasked by (vm_compute; reflexivity).
  split; [exact Hasked|].
  apply (unknown_action_aborts infra_wizard staging_then_timeout 1 config_timed_out
           "timeout" VNone Hasked eq_refl); discriminate.
Defined.

Lemma empty_location_aborts_witness :
  exchanges (execute infra_wizard staging_model_error) !! 0%nat
  = Some config_model_error ∧
  outcome (execute infra_wizard staging_model_error) = Raise IndexError ∧
  length (exchanges (execute infra_wizard staging_model_error)) = 1%nat ∧
  state (ctx_after (execute infra_wizard staging_model_error))
  = ex_store config_model_error.
Proof.
  assert (exchanges (execute infra_wizard staging_model_error) !! 0%nat
          = Some config_model_error) as Hasked by (vm_compute; reflexivity).
  split; [exact Hasked|].
  apply (empty_location_aborts infra_wizard staging_model_error 0 config_model_error
           model_errors {| loc := Some []; msg := Some "Value error, sizes do not add up" |}
           Hasked eq_refl); [|reflexivity].
  unfold model_errors. left.
Defined.

Lemma every_step_resolved_witness :
  outcome (execute infra_wizard staging_complete)
  = Return {[ "environment" := VStr "staging"; "config" := VStr "t3.micro" ]} ∧
  steps infra_wizard
  = ([environment_step] ++ advanced_features_step :: [config_step])%list ∧
  ∃ answers,
    outcome (run_steps (wizard_id infra_wizard) [environment_step]
               (load_session staging_complete (wizard_id infra_wizard)) staging_complete)
    = Return answers ∧
    answers ⊆ {[ "environment" := VStr "staging"; "config" := VStr "t3.micro" ]} ∧
    (is_Some (({[ "environment" := VStr "staging"; "config" := VStr "t3.micro" ]}
                : gmap string PyVal) !! step_id advanced_features_step) ∨
     hidden advanced_features_step answers = true ∨
     (is_required advanced_features_step = false ∧
      ∃ ex data, ex ∈ exchanges (execute infra_wizard staging_complete) ∧
                 ex_step ex = advanced_features_step ∧
                 ex_reply ex = Some (Result "decline" data))).
Proof.
  assert (outcome (execute infra_wizard staging_complete)
          = Return {[ "environment" := VStr "staging"; "config" := VStr "t3.micro" ]})
    as Hdone by (vm_compute; reflexivity).
  assert (steps infra_wizard
          = ([environment_step] ++ advanced_features_step :: [config_step])%list)
    as Hsteps by (vm_compute; reflexivity).
  split; [exact Hdone|]. split; [exact Hsteps|].
  exact (every_step_resolved infra_wizard staging_complete _ [environment_step]
           [config_step] advanced_features_step Hdone Hsteps).
Defined.

Lemma execute_writes_own_key_witness :
  "profile_wizard" ≠ wizard_id infra_wizard ∧
  state (ctx_after (execute infra_wizard shared_session)) !! "profile_wizard"
  = state shared_session !! "profile_wizard" ∧
  (∀ ex, ex ∈ exchanges (execute infra_wizard shared_session) →
         ex_store ex !! "profile_wizard" = state shared_session !! "profile_wizard").
Proof.
  assert ("profile_wizard" ≠ wizard_id infra_wizard) as Hother
    by (vm_compute; discriminate).
  split; [exact Hother|].
  exact (execute_writes_own_key infra_wizard shared_session "profile_wizard" Hother).
Defined.

Lemma store_changes_at_accept_witness :
  exchanges (execute infra_wizard staging_invalid_config) !! 0%nat
  = Some config_rejected ∧
  exchanges (execute infra_wizard staging_invalid_config) !! 1%nat
  = Some config_asked_again ∧
  (∀ data, ex_reply config_rejected ≠ Some (Result "accept" data)) ∧
  ex_store config_asked_again = ex_store config_rejected.
Proof.
  assert (exchanges (execute infra_wizard staging_invalid_config) !! 0%nat
          = Some config_rejected) as Hfirst by (vm_compute; reflexivity).
  assert (exchanges (execute infra_wizard staging_invalid_config) !! 1%nat
          = Some config_asked_again) as Hnext by (vm_compute; reflexivity).
  assert (∀ data, ex_reply config_rejected ≠ Some (Result "accept" data)) as Hnot
    by (intros data; discriminate).
  split; [exact Hfirst|]. split; [exact Hnext|]. split; [exact Hnot|].
  exact (store_changes_at_accept infra_wizard staging_invalid_config 0
           config_rejected config_asked_again Hfirst Hnext Hnot).
Defined.

Lemma execute_reads_loaded_only_witness :
  load_session legacy_session (wizard_id infra_wizard)
  = load_session legacy_session_shared (wizard_id infra_wizard) ∧
  replies legacy_session = replies legacy_session_shared ∧
  outcome (execute infra_wizard legacy_session)
  = outcome (execute infra_wizard legacy_session_shared) ∧
  call_of <$> exchanges (execute infra_wizard legacy_session)
  = call_of <$> exchanges (execute infra_wizard legacy_session_shared) ∧
  replies (ctx_after (execute infra_wizard legacy_session))
  = replies (ctx_after (execute infra_wizard legacy_session_shared)).
Proof.
  assert (load_session legacy_session (wizard_id infra_wizard)
          = load_session legacy_session_shared (wizard_id infra_wizard)) as Hload
    by (vm_compute; reflexivity).
  split; [exact Hload|]. split; [reflexivity|].
  exact (execute_reads_loaded_only infra_wizard legacy_session legacy_session_shared
           Hload eq_refl).
Defined.

Lemma non_dict_entry_is_ignored_witness :
  (∀ d, state garbled_session !! wizard_id infra_wizard ≠ Some (VDict d)) ∧
  load_session garbled_session (wizard_id infra_wizard) = ∅ ∧
  outcome (execute infra_wizard garbled_session)
  = outcome (execute infra_wizard (fresh_session (replies garbled_session))) ∧
  call_of <$> exchanges (execute infra_wizard garbled_session)
  = call_of <$> exchanges (execute infra_wizard (fresh_session (replies garbled_session))).
Proof.
  assert (state garbled_session !! wizard_id infra_wizard = Some (VStr "staging"))
    as Hentry by (vm_compute; reflexivity).
  assert (∀ d, state garbled_session !! wizard_id infra_wizard ≠ Some (VDict d))
    as Hnot by (intros d; rewrite Hentry; discriminate).
  split; [exact Hnot|].
  exact (non_dict_entry_is_ignored infra_wizard garbled_session Hnot).
Defined.

Lemma answered_key_not_asked_again_witness :
  exchanges (execute infra_wizard production_then_decline) !! 0%nat
  = Some environment_accepted ∧
  ex_reply environment_accepted = Some (Result "accept" (VStr "production")) ∧
  (0 < 2)%nat ∧
  exchanges (execute infra_wizard production_then_decline) !! 2%nat
  = Some config_declined ∧
  step_id (ex_step config_declined) ≠ step_id (ex_step environment_accepted).
Proof.
  assert (exchanges (execute infra_wizard production_then_decline) !! 0%nat
          = Some environment_accepted) as Hfirst by (vm_compute; reflexivity).
  assert (exchanges (execute infra_wizard production_then_decline) !! 2%nat
          = Some config_declined) as Hlater by (vm_compute; reflexivity).
  assert (0 < 2)%nat as Hlt by lia.
  split; [exact Hfirst|]. split; [reflexivity|]. split; [exact Hlt|].
  split; [exact Hlater|].
  exact (answered_key_not_asked_again infra_wizard production_then_decline 0 2
           environment_accepted config_declined (VStr "production")
           Hfirst eq_refl Hlt Hlater).
Defined.

Lemma visible_step_is_asked_witness :
  let before :=
    run_steps (wizard_id infra_wizard) [environment_step]
      (load_session production_then_decline (wizard_id infra_wizard))
      production_then_decline in
  steps infra_wizard
  = ([environment_step] ++ advanced_features_step :: [config_step])%list ∧
  outcome before = Return {[ "environment" := VStr "production" ]} ∧
  ({[ "environment" := VStr "production" ]} : gmap string PyVal)
    !! step_id advanced_features_step = None ∧
  hidden advanced_features_step {[ "environment" := VStr "production" ]} = false ∧
  ∃ ex,
    exchanges (execute infra_wizard production_then_decline)
      !! length (exchanges before) = Some ex ∧
    ex_step ex = advanced_features_step ∧
    ex_message ex = message advanced_features_step ∧
    ex_response_type ex = schema advanced_features_step ∧
    ex_store ex = state (ctx_after before).
Proof.
  intros before.
  assert (steps infra_wizard
          = ([environment_step] ++ advanced_features_step :: [config_step])%list)
    as Hsteps by (vm_compute; reflexivity).
  assert (outcome before = Return {[ "environment" := VStr "production" ]})
    as Hreached by (vm_compute; reflexivity).
  assert (({[ "environment" := VStr "production" ]} : gmap string PyVal)
            !! step_id advanced_features_step = None)
    as Hnew by (vm_compute; reflexivity).
  assert (hidden advanced_features_step {[ "environment" := VStr "production" ]} = false)
    as Hshown by (vm_compute; reflexivity).
  split; [exact Hsteps|]. split; [exact Hreached|]. split; [exact Hnew|].
  split; [exact Hshown|].
  exact (visible_step_is_asked infra_wizard production_then_decline [environment_step]
           [config_step] advanced_features_step _ Hsteps Hreached Hnew Hshown).
Defined.

Lemma every_prompt_is_of_its_step_witness :
  config_asked_again ∈ exchanges (execute infra_wizard staging_invalid_config) ∧
  ex_step config_asked_again ∈ steps infra_wizard ∧
  ex_response_type config_asked_again = schema (ex_step config_asked_again) ∧
  (ex_message config_asked_again = message (ex_step config_asked_again) ∨
   ∃ errors details,
     error_details errors = Some details ∧
     ex_message config_asked_again = retry_message (ex_step config_asked_again) details).
Proof.
  assert (exchanges (execute infra_wizard staging_invalid_config) !! 1%nat
          = Some config_asked_again) as Hnext by (vm_compute; reflexivity).
  assert (config_asked_again ∈ exchanges (execute infra_wizard staging_invalid_config))
    as Hin by exact (list_elem_of_lookup_2 _ _ _ Hnext).
  split; [exact Hin|].
  exact (every_prompt_is_of_its_step infra_wizard staging_invalid_config
           config_asked_again Hin).
Defined.

Lemma settled_session_completes_witness :
  let loaded := load_session settled_session (wizard_id infra_wizard) in
  (∀ step, step ∈ steps infra_wizard →
           answered step loaded = true ∨ hidden step loaded = true) ∧
  exchanges (execute infra_wizard settled_session) = [] ∧
  outcome (execute infra_wizard settled_session) = Return loaded ∧
  state (ctx_after (execute infra_wizard settled_session))
  = <[wizard_id infra_wizard := VDict ∅]> (state settled_session).
Proof.
  intros loaded.
  assert (∀ step, step ∈ steps infra_wizard →
                  answered step loaded = true ∨ hidden step loaded = true) as Hall.
  { intros step Hin.
    change (steps infra_wizard)
      with [environment_step; advanced_features_step; config_step] in Hin.
    apply elem_of_cons in Hin as [->|Hin]; [left; vm_compute; reflexivity|].
    apply elem_of_cons in Hin as [->|Hin]; [right; vm_compute; reflexivity|].
    apply list_elem_of_singleton in Hin as ->. left. vm_compute. reflexivity. }
  split; [exact Hall|].
  exact (settled_session_completes infra_wizard settled_session Hall).
Defined.

Lemma provision_infrastructure_collects_witness :
  load_session staging_complete (wizard_id infra_wizard) = ∅ ∧
  outcome (provision_infrastructure (λ _, "{...}") staging_complete)
  = Return "Infrastructure successfully provisioned with config: {...}" ∧
  ∃ m,
    outcome (execute infra_wizard staging_complete) = Return m ∧
    "Infrastructure successfully provisioned with config: {...}"
    = "Infrastructure successfully provisioned with config: " +:+ (λ _, "{...}") m ∧
    is_Some (m !! "environment") ∧
    is_Some (m !! "config") ∧
    (is_Some (m !! "advanced_features")
     ↔ m !! "environment" = Some (VStr "production")) ∧
    (∀ k, is_Some (m !! k) → k ∈ ["environment"; "advanced_features"; "config"]).
Proof.
  assert (load_session staging_complete (wizard_id infra_wizard) = ∅) as Hfresh
    by (vm_compute; reflexivity).
  assert (outcome (provision_infrastructure (λ _, "{...}") staging_complete)
          = Return "Infrastructure successfully provisioned with config: {...}")
    as Hdone by (vm_compute; reflexivity).
  split; [exact Hfresh|]. split; [exact Hdone|].
  exact (provision_infrastructure_collects (λ _, "{...}") staging_complete _
           Hfresh Hdone).
Defined.

Lemma retry_prompt_from_original_witness :
  exchanges (execute infra_wizard staging_invalid_config) !! 0%nat
  = Some config_rejected ∧
  ex_reply config_rejected = Some (ValidationError config_errors) ∧
  exchanges (execute infra_wizard staging_invalid_config) !! 1%nat
  = Some config_asked_again ∧
  ∃ details,
    error_details config_errors = Some details ∧
    ex_step config_asked_again = ex_step config_rejected ∧
    ex_message config_asked_again = retry_message (ex_step config_rejected) details.
Proof.
  assert (exchanges (execute infra_wizard staging_invalid_config) !! 0%nat
          = Some config_rejected) as Hfirst by (vm_compute; reflexivity).
  assert (exchanges (execute infra_wizard staging_invalid_config) !! 1%nat
          = Some config_asked_again) as Hnext by (vm_compute; reflexivity).
  split; [exact Hfirst|]. split; [reflexivity|]. split; [exact Hnext|].
  exact (retry_prompt_from_original infra_wizard staging_invalid_config 0
           config_rejected config_asked_again config_errors Hfirst eq_refl Hnext).
Defined.

Lemma retries_unbounded_witness :
  error_details config_errors = Some config_listing ∧
  length (exchanges
            (elicit_loop "infra_provisioning_wizard" config_step ∅
               (message config_step) ∅
               (replicate 3 (ValidationError config_errors)))) = 4%nat ∧
  outcome (elicit_loop "infra_provisioning_wizard" config_step ∅
             (message config_step) ∅
             (replicate 3 (ValidationError config_errors))) = Suspended.
Proof.
  assert (error_details config_errors = Some config_listing) as Hlisting
    by (vm_compute; reflexivity).
  split; [exact Hlisting|].
  exact (retries_unbounded "infra_provisioning_wizard" config_step ∅ ∅
           (message config_step) config_errors config_listing 3 Hlisting).
Defined.

Lemma deploy_user_profile_collects_witness :
  load_session admin_complete (wizard_id profile_wizard) = ∅ ∧
  outcome (execute profile_wizard admin_complete) = Return admin_answers ∧
  outcome (deploy_user_profile (λ _, "{...}") "tuple index out of range" admin_complete)
  = Return ("Wizard completed successfully. Data gathered:" +:+ nl
              +:+ (λ _, "{...}") admin_answers) ∧
  is_Some (admin_answers !! "username") ∧
  is_Some (admin_answers !! "role") ∧
  is_Some (admin_answers !! "details") ∧
  (is_Some (admin_answers !! "permissions")
   ↔ admin_answers !! "role" = Some (VStr "admin")) ∧
  (∀ k, is_Some (admin_answers !! k) →
        k ∈ ["username"; "role"; "permissions"; "details"]).
Proof.
  assert (load_session admin_complete (wizard_id profile_wizard) = ∅) as Hfresh
    by (vm_compute; reflexivity).
  assert (outcome (execute profile_wizard admin_complete) = Return admin_answers)
    as Hdone by (vm_compute; reflexivity).
  split; [exact Hfresh|]. split; [exact Hdone|].
  exact (deploy_user_profile_collects (λ _, "{...}") "tuple index out of range"
           admin_complete admin_answers Hfresh Hdone).
Defined.

Lemma calls_are_bounded_witness :
  length (exchanges (execute infra_wizard staging_invalid_config)) = 2%nat ∧
  validation_failures (exchanges (execute infra_wizard staging_invalid_config)) = 1%nat ∧
  length (steps infra_wizard) = 3%nat ∧
  (length (exchanges (execute infra_wizard staging_invalid_config))
   ≤ length (steps infra_wizard)
     + validation_failures (exchanges (execute infra_wizard staging_invalid_config)))%nat.
Proof.
  split; [vm_compute; reflexivity|]. split; [vm_compute; reflexivity|].
  split; [vm_compute; reflexivity|].
  exact (calls_are_bounded infra_wizard staging_invalid_config).
Defined.
